(** * GitHubArtifactDatabase: a read-only example database loaded from a
      GitHub Actions artifact

    Shallow embedding of
    [hypothesis-python/src/hypothesis/extra/github_actions.py].

    The class keeps a handful of attributes, talks to the GitHub REST API
    through [requests], buffers the archive in a temporary file, unpacks it
    into [self.path] and then delegates reads to its base class
    [DirectoryBasedExampleDatabase].  The embedding threads the object and the
    outside world (filesystem and the log of performed I/O) through a small
    state-and-exception monad; the remote service, the temporary-file name
    chooser, the buffering of the temporary file, [shutil.unpack_archive] and
    the base class are the collaborators the file is parameterised over. *)

From Stdlib Require Import String Ascii List ZArith Bool Lia Sorted Permutation.
From Stdlib Require OrdersEx.
From stdpp Require Import base option list gmap strings.

Open Scope string_scope.

(** ** Python values used by the module *)

(** [bytes] objects: database keys and values, response bodies. *)
Definition bytes := list Byte.byte.

(** Python's [<] on [str] compares code points lexicographically; on the
    UTF-8 encoding this is the lexicographic order of the bytes. *)
Definition str_lt (a b : string) : bool := String.ltb a b.
Definition str_le (a b : string) : bool := negb (str_lt b a).

(** [str(x)] inside an f-string for an attribute that is a [str] or [None]. *)
Definition format_opt (o : option string) : string :=
  match o with
  | Some s => s
  | None => "None"
  end.

(** [needle in haystack] for [str]. *)
Fixpoint str_contains (needle hay : string) : bool :=
  String.prefix needle hay ||
  match hay with
  | EmptyString => false
  | String _ hay' => str_contains needle hay'
  end.

(** ** Exceptions *)

(** The exception classes that occur. An instance of a subclass (a
    [ConnectTimeout], say, which is a [ConnectionError]) is represented by
    the class an [except] clause matches it as. *)
Inductive exc_class :=
| RuntimeError
| IndexError
| KeyError
| AttributeError
| ConnectionError      (* requests.exceptions.ConnectionError *)
| HTTPError            (* requests.exceptions.HTTPError *)
| RequestException     (* any other requests.exceptions.RequestException *)
| ReadError            (* shutil.ReadError *)
| OSError.

Global Instance exc_class_eq_dec : EqDecision exc_class.
Proof. solve_decision. Defined.

(** An exception instance: its class, its message and the [__cause__] set by
    [raise ... from e]. *)
#[warnings="-register-all"]
Inductive exn :=
| Exn (cls : exc_class) (msg : string) (cause : option exn).

Definition exn_class (e : exn) : exc_class := let 'Exn c _ _ := e in c.
Definition exn_msg (e : exn) : string := let 'Exn _ m _ := e in m.
Definition exn_cause (e : exn) : option exn := let 'Exn _ _ c := e in c.

(** [isinstance(e, cls)] for the classes of [except] clauses. *)
Definition isinstance (e : exn) (c : exc_class) : bool :=
  bool_decide (exn_class e = c).

(** Outcome of a Python call: a returned value or a raised exception. *)
Inductive outcome (A : Type) :=
| Return (a : A)
| Raise (e : exn).
Arguments Return {A} a.
Arguments Raise {A} e.

(** ** Artifact descriptors and the selection of the latest one *)

(** One element of the ["artifacts"] array of the listing response,
    restricted to the three keys the module reads. *)
Record Artifact := mkArtifact {
  name : string;
  created_at : string;
  archive_download_url : string
}.

Section Sorted.
Context {A : Type} (key : A -> string).

(** Insertion step of a stable sort: [x] stood before every element of
    [l] in the input, so it goes in front of the first element whose key
    is not smaller. Only [<] on keys is used, as [sorted] does. *)
Fixpoint sorted_insert (x : A) (l : list A) : list A :=
  match l with
  | [] => [x]
  | y :: r =>
      if str_lt (key y) (key x) then y :: sorted_insert x r
      else x :: y :: r
  end.

(** [sorted(l, key=key)]: ascending, stable. *)
Fixpoint sorted (l : list A) : list A :=
  match l with
  | [] => []
  | x :: r => sorted_insert x (sorted r)
  end.

Definition key_le (a b : A) : Prop := str_le (key a) (key b) = true.

(** Scanning from the right, the candidate is replaced only by a strictly
    greater key: among equal keys the rightmost stays. *)
Definition later_max (x : A) (best : option A) : option A :=
  match best with
  | None => Some x
  | Some y => if str_lt (key y) (key x) then Some x else Some y
  end.

Definition latest (l : list A) : option A := foldr later_max None l.
End Sorted.

(** [l[-1]] *)
Definition index_last {A : Type} (l : list A) : outcome A :=
  match last l with
  | Some a => Return a
  | None => Raise (Exn IndexError "list index out of range" None)
  end.

(** [filter(lambda a: a["name"] == artifact_name, artifacts)] *)
Definition name_matches (artifact_name : string) (a : Artifact) : bool :=
  String.eqb (name a) artifact_name.

(** Lines 99-102:
    [sorted(filter(lambda a: a["name"] == self.artifact_name, artifacts),
            key=lambda a: a["created_at"])[-1]] *)
Definition select_artifact (artifact_name : string) (artifacts : list Artifact)
  : outcome Artifact :=
  index_last (sorted created_at (List.filter (name_matches artifact_name) artifacts)).

(** ** The outside world *)

(** Keyword arguments of a [requests.get] call. [headers] is the Python
    dict passed as [headers=]. *)
Record Request := mkRequest {
  url : string;
  headers : gmap string string;
  stream : bool;
  allow_redirects : bool
}.

(** A [requests.Response], given by what the methods and attributes the
    module uses evaluate to: [raise_for_status()] returns ([None]) or raises,
    [json()] returns the decoded object or raises, [content] is the body. *)
Record Response := mkResponse {
  raise_for_status : option exn;
  json : outcome (gmap string (list Artifact));
  content : bytes
}.

Inductive node :=
| File (data : bytes)
| Dir.

(** I/O performed, oldest first. *)
Inductive Event :=
| EvGet (r : Request)                       (* requests.get *)
| EvTempCreate (f : string)                 (* NamedTemporaryFile() *)
| EvWrite (f : string) (data : bytes)       (* f.write *)
| EvMkdir (p : string)                      (* mkdir_p *)
| EvUnpack (archive dest format : string)   (* shutil.unpack_archive *)
| EvTempDelete (f : string)                 (* leaving the with block *)
| EvStoreRead (root : string) (key : bytes) (* base class fetch *).

Definition is_network (e : Event) : bool :=
  match e with EvGet _ => true | _ => false end.

(** The collaborators outside the module. The remote service may answer
    differently over time, so it sees the I/O performed so far. *)
Record Env := mkEnv {
  (** [requests.get(url, headers=..., ...)]: a response, or an exception of
      the transport. *)
  requests_get : list Event -> Request -> outcome Response;
  (** The name [tempfile.NamedTemporaryFile()] picks. *)
  mkstemp : gmap string node -> string;
  (** The file object [NamedTemporaryFile()] returns is buffered and the
      module never flushes it: of a body passed to [f.write], this is the
      part that has reached the file itself when the file is opened again by
      name. What remains in the buffer is written when the [with] block is
      left, just before the file is removed. *)
  written_through : bytes -> bytes;
  (** [shutil.unpack_archive(filename, extract_dir, format)]: the exception
      it raises, if any, and the filesystem it leaves behind. *)
  unpack_archive :
    gmap string node -> string -> string -> string -> option exn * gmap string node;
  (** [DirectoryBasedExampleDatabase.fetch] of a store rooted at a directory:
      the values it yields for a key. *)
  DirectoryBasedExampleDatabase_fetch : gmap string node -> string -> bytes -> list bytes
}.

(** ** The object *)

Record GitHubArtifactDatabase := mkDB {
  owner : string;
  repo : string;
  artifact_name : string;
  path : string;
  token : option string;
  _artifact_downloaded : bool;
  (** Whether [DirectoryBasedExampleDatabase.__init__] has run on the
      object, that is whether the attributes of the base class exist. *)
  base_initialised : bool
}.

(** The object together with the world it acts on. *)
Record Machine := mkMachine {
  self : GitHubArtifactDatabase;
  fs : gmap string node;
  log : list Event
}.

Definition set_self (d : GitHubArtifactDatabase) (m : Machine) : Machine :=
  mkMachine d (fs m) (log m).
Definition set_fs (f : gmap string node) (m : Machine) : Machine :=
  mkMachine (self m) f (log m).
Definition emit (e : Event) (m : Machine) : Machine :=
  mkMachine (self m) (fs m) (log m ++ [e]).

(** ** Statements: state and exceptions *)

Definition M (A : Type) : Type := Machine -> outcome A * Machine.

Global Instance M_ret : MRet M := fun A a m => (Return a, m).
Global Instance M_bind : MBind M := fun A B f c m =>
  match c m with
  | (Return a, m') => f a m'
  | (Raise e, m') => (Raise e, m')
  end.

Definition raise {A : Type} (e : exn) : M A := fun m => (Raise e, m).
Definition lift {A : Type} (o : outcome A) : M A := fun m => (o, m).
Definition get_self : M GitHubArtifactDatabase := fun m => (Return (self m), m).
Definition modify (f : Machine -> Machine) : M unit := fun m => (Return tt, f m).

(** [try: body except ...: handler] where [handler] re-raises what no
    clause matches. *)
Definition try_except {A : Type} (body : M A) (handler : exn -> M A) : M A :=
  fun m =>
    match body m with
    | (Return a, m') => (Return a, m')
    | (Raise e, m') => handler e m'
    end.

(** [d[k]] on a dict *)
Definition dict_getitem {V : Type} (d : gmap string V) (k : string) : outcome V :=
  match d !! k with
  | Some v => Return v
  | None => Raise (Exn KeyError k None)
  end.

(** ** Filesystem helpers *)

(** The directories to create for a path: every proper prefix that ends
    just before a ["/"], then the path itself. *)
Fixpoint ancestors_from (acc rest : string) : list string :=
  match rest with
  | EmptyString => [acc]
  | String c rest' =>
      let tail := ancestors_from (acc ++ String c EmptyString) rest' in
      if Ascii.eqb c "/" && negb (String.eqb acc "") then acc :: tail else tail
  end.

Definition ancestors (p : string) : list string := ancestors_from "" p.

(** Modelled from the spec: [hypothesis.configuration.mkdir_p] is imported by
    the module but is not among the sources at hand. "Ensure the local
    backing directory exists (create recursively, idempotent, no error if
    already present)." *)
Definition mkdir_p (p : string) (f : gmap string node) : gmap string node :=
  foldl (fun f d => match f !! d with Some _ => f | None => <[d := Dir]> f end)
        f (ancestors p).

(** ** Construction *)

(** [GitHubArtifactDatabase(owner, repo, artifact_name, path)] in a process
    whose environment is [environ]. *)
Definition __init__ (environ : gmap string string)
    (owner repo artifact_name path : string) : GitHubArtifactDatabase :=
  {| owner := owner;
     repo := repo;
     artifact_name := artifact_name;
     path := path;
     token := environ !! "GITHUB_TOKEN";
     _artifact_downloaded := false;
     base_initialised := false |}.

(** The default of the [artifact_name] parameter. *)
Definition default_artifact_name : string := "hypofuzz-example-db".

(** Lines 68-69. *)
Definition __repr__ (d : GitHubArtifactDatabase) : string :=
  "GitHubArtifactDatabase(owner=" ++ owner d ++ ", repo=" ++ repo d
  ++ ", artifact_name=" ++ artifact_name d ++ ")".

(** [super().__init__(self.path)]: assigns [self.path] again and creates the
    attributes of the base class. *)
Definition super_init (p : string) (d : GitHubArtifactDatabase) : GitHubArtifactDatabase :=
  {| owner := owner d;
     repo := repo d;
     artifact_name := artifact_name d;
     path := p;
     token := token d;
     _artifact_downloaded := _artifact_downloaded d;
     base_initialised := true |}.

Definition set_artifact_downloaded (b : bool) (d : GitHubArtifactDatabase)
  : GitHubArtifactDatabase :=
  {| owner := owner d;
     repo := repo d;
     artifact_name := artifact_name d;
     path := path d;
     token := token d;
     _artifact_downloaded := b;
     base_initialised := base_initialised d |}.

(** ** Requests issued by the module *)

(** Lines 78-83. *)
Definition listing_request (d : GitHubArtifactDatabase) : Request :=
  {| url := "https://api.github.com/repos/" ++ owner d ++ "/" ++ repo d
            ++ "/actions/artifacts";
     headers := list_to_map
       [ ("Accept", "application/vnd.github+json");
         ("X-GitHub-Api-Version", "2022-11-28 ");
         ("Authorization", "Bearer " ++ format_opt (token d)) ];
     stream := false;
     allow_redirects := true |}.

(** Lines 107-116. *)
Definition download_request (d : GitHubArtifactDatabase) (a : Artifact) : Request :=
  {| url := archive_download_url a;
     headers := list_to_map
       [ ("Accept", "application/vnd.github+json");
         ("X-GitHub-Api-Version", "2022-11-28");
         ("Authorization", "Bearer " ++ format_opt (token d)) ];
     stream := true;
     allow_redirects := true |}.

Definition msg_connect_listing : string :=
  "Could not connect to GitHub to get the latest artifact.".
Definition msg_connect_download : string :=
  "Could not connect to GitHub to download the artifact.".
Definition msg_http : string :=
  "Could not get the latest artifact from GitHub. "
  ++ "Check that the repository exists and that you've provided a valid token (GITHUB_TOKEN).".
Definition msg_read_only : string :=
  "This database is read-only. Please wrap this class with ReadOnlyDatabase, i.e. ReadOnlyDatabase(GitHubArtifactsDatabase(...)).".

(** The two [except] clauses of lines 87-96 and of lines 118-126; an exception
    of another class propagates. *)
Definition handle_request_error {A : Type} (connect_msg : string) (e : exn) : M A :=
  if isinstance e ConnectionError then
    raise (Exn RuntimeError connect_msg (Some e))
  else if isinstance e HTTPError then
    raise (Exn RuntimeError msg_http (Some e))
  else raise e.

Section Methods.
Variable E : Env.

(** [requests.get(...)] *)
Definition get (r : Request) : M Response := fun m =>
  (requests_get E (log m) r, emit (EvGet r) m).

(** [res.raise_for_status()] *)
Definition check_status (res : Response) : M unit :=
  match raise_for_status res with
  | None => mret tt
  | Some e => raise e
  end.

(** [with tempfile.NamedTemporaryFile() as f: body]; the file is removed
    when the block is left, normally or by an exception. *)
Definition with_NamedTemporaryFile {A : Type} (body : string -> M A) : M A :=
  fun m =>
    let f := mkstemp E (fs m) in
    let '(r, m') := body f (emit (EvTempCreate f) (set_fs (<[f := File []]> (fs m)) m)) in
    (r, emit (EvTempDelete f) (set_fs (delete f (fs m')) m')).

(** [f.write(data)] on the buffered file object: the file on disk holds
    what has been written through. *)
Definition file_write (f : string) (data : bytes) : M unit :=
  modify (fun m =>
    emit (EvWrite f data) (set_fs (<[f := File (written_through E data)]> (fs m)) m)).

(** [mkdir_p(path)] *)
Definition do_mkdir_p (p : string) : M unit :=
  modify (fun m => emit (EvMkdir p) (set_fs (mkdir_p p (fs m)) m)).

(** [shutil.unpack_archive(filename, extract_dir, format)] *)
Definition do_unpack_archive (filename extract_dir format : string) : M unit :=
  fun m =>
    let '(r, fs') := unpack_archive E (fs m) filename extract_dir format in
    (match r with None => Return tt | Some e => Raise e end,
     emit (EvUnpack filename extract_dir format) (set_fs fs' m)).

(** Lines 71-135. *)
Definition _fetch_artifact : M unit :=
  d ← get_self;
  if _artifact_downloaded d then mret tt
  else
    artifacts ← try_except
      (res ← get (listing_request d);
       _ ← check_status res;
       body ← lift (json res);
       lift (dict_getitem body "artifacts"))
      (handle_request_error msg_connect_listing);
    artifact ← lift (select_artifact (artifact_name d) artifacts);
    _ ← with_NamedTemporaryFile (fun f =>
      req ← try_except
        (req ← get (download_request d artifact);
         _ ← check_status req;
         mret req)
        (handle_request_error msg_connect_download);
      _ ← file_write f (content req);
      _ ← do_mkdir_p (path d);
      do_unpack_archive f (path d) "zip");
    _ ← modify (fun m => set_self (super_init (path (self m)) (self m)) m);
    modify (fun m => set_self (set_artifact_downloaded true (self m)) m).

(** [super().fetch(key)]: the base class reads below [self.path]; its
    attributes exist only once its [__init__] has run. *)
Definition super_fetch (key : bytes) : M (list bytes) := fun m =>
  if base_initialised (self m) then
    (Return (DirectoryBasedExampleDatabase_fetch E (fs m) (path (self m)) key),
     emit (EvStoreRead (path (self m)) key) m)
  else
    (Raise (Exn AttributeError "'GitHubArtifactDatabase' object has no attribute 'keypaths'" None), m).

(** Lines 137-140. *)
Definition fetch (key : bytes) : M (list bytes) :=
  _ ← _fetch_artifact;
  super_fetch key.

(** Lines 143-156. *)
Definition save (key value : bytes) : M unit :=
  raise (Exn RuntimeError msg_read_only None).

Definition move (key value : bytes) : M unit :=
  raise (Exn RuntimeError msg_read_only None).

Definition delete (key value : bytes) : M unit :=
  raise (Exn RuntimeError msg_read_only None).

End Methods.

(** What the [except] clauses turn an exception of the [try] body into. *)
Definition translate (connect_msg : string) (e : exn) : exn :=
  if isinstance e ConnectionError then Exn RuntimeError connect_msg (Some e)
  else if isinstance e HTTPError then Exn RuntimeError msg_http (Some e)
  else e.

(** ** Walking through [_fetch_artifact] *)

Section WalkDefs.
Variable E : Env.

(** What the body of the first [try] evaluates to: the listed artifacts or
    the exception raised on the way. *)
Definition listing_outcome (m : Machine) : outcome (list Artifact) :=
  match requests_get E (log m) (listing_request (self m)) with
  | Raise e => Raise e
  | Return res =>
      match raise_for_status res with
      | Some e => Raise e
      | None =>
          match json res with
          | Raise e => Raise e
          | Return body => dict_getitem body "artifacts"
          end
      end
  end.

(** The machine once the listing request has been issued. *)
Definition listed (m : Machine) : Machine := emit (EvGet (listing_request (self m))) m.

(** The machine inside the [with] block, once the download request has been
    issued. *)
Definition requested (m : Machine) (a : Artifact) : Machine :=
  let f := mkstemp E (fs m) in
  emit (EvGet (download_request (self m) a))
    (emit (EvTempCreate f) (set_fs (<[f := File []]> (fs m)) (listed m))).

(** What the body of the second [try] evaluates to. *)
Definition download_outcome (m : Machine) (a : Artifact) : outcome Response :=
  match requests_get E (log (listed m) ++ [EvTempCreate (mkstemp E (fs m))])
                     (download_request (self m) a) with
  | Raise e => Raise e
  | Return req =>
      match raise_for_status req with
      | Some e => Raise e
      | None => Return req
      end
  end.

(** Leaving the [with] block. *)
Definition closed (m : Machine) (m' : Machine) : Machine :=
  let f := mkstemp E (fs m) in
  emit (EvTempDelete f) (set_fs (base.delete f (fs m')) m').

(** The machine just before [shutil.unpack_archive] runs. *)
Definition buffered (m : Machine) (a : Artifact) (req : Response) : Machine :=
  let f := mkstemp E (fs m) in
  let m3 := requested m a in
  let m4 := emit (EvWrite f (content req))
              (set_fs (<[f := File (written_through E (content req))]> (fs m3)) m3) in
  emit (EvMkdir (path (self m))) (set_fs (mkdir_p (path (self m)) (fs m4)) m4).

Definition unpack_outcome (m : Machine) (a : Artifact) (req : Response)
  : option exn * gmap string node :=
  unpack_archive E (fs (buffered m a req)) (mkstemp E (fs m)) (path (self m)) "zip".

Definition unpacked (m : Machine) (a : Artifact) (req : Response) : Machine :=
  emit (EvUnpack (mkstemp E (fs m)) (path (self m)) "zip")
    (set_fs (snd (unpack_outcome m a req)) (buffered m a req)).

(** The ways through [_fetch_artifact], each with the outcome and the
    machine it ends in. *)
Inductive fetch_path (m : Machine) : outcome unit -> Machine -> Prop :=
| path_cached :
    _artifact_downloaded (self m) = true ->
    fetch_path m (Return tt) m
| path_listing_failed e :
    _artifact_downloaded (self m) = false ->
    listing_outcome m = Raise e ->
    fetch_path m (Raise (translate msg_connect_listing e)) (listed m)
| path_nothing_selected artifacts e :
    _artifact_downloaded (self m) = false ->
    listing_outcome m = Return artifacts ->
    select_artifact (artifact_name (self m)) artifacts = Raise e ->
    fetch_path m (Raise e) (listed m)
| path_download_failed artifacts a e :
    _artifact_downloaded (self m) = false ->
    listing_outcome m = Return artifacts ->
    select_artifact (artifact_name (self m)) artifacts = Return a ->
    download_outcome m a = Raise e ->
    fetch_path m (Raise (translate msg_connect_download e)) (closed m (requested m a))
| path_unpack_failed artifacts a req e :
    _artifact_downloaded (self m) = false ->
    listing_outcome m = Return artifacts ->
    select_artifact (artifact_name (self m)) artifacts = Return a ->
    download_outcome m a = Return req ->
    fst (unpack_outcome m a req) = Some e ->
    fetch_path m (Raise e) (closed m (unpacked m a req))
| path_success artifacts a req :
    _artifact_downloaded (self m) = false ->
    listing_outcome m = Return artifacts ->
    select_artifact (artifact_name (self m)) artifacts = Return a ->
    download_outcome m a = Return req ->
    fst (unpack_outcome m a req) = None ->
    fetch_path m (Return tt)
      (set_self (set_artifact_downloaded true (super_init (path (self m)) (self m)))
                (closed m (unpacked m a req))).
End WalkDefs.

(** ** A process using the database *)

Inductive call :=
| Fetch (key : bytes)
| Save (key value : bytes)
| Move (key value : bytes)
| Delete (key value : bytes).

Section ProcessDefs.
Variable E : Env.

(** The machine a call leaves behind, whether it returns or raises. *)
Definition after (c : call) (m : Machine) : Machine :=
  match c with
  | Fetch k => snd (fetch E k m)
  | Save k v => snd (save k v m)
  | Move k v => snd (move k v m)
  | Delete k v => snd (delete k v m)
  end.

Definition run (cs : list call) (m : Machine) : Machine := foldl (fun m c => after c m) m cs.

(** How often, along a run, a call found the flag unset and left it set. *)
Fixpoint completed_fetches (cs : list call) (m : Machine) : nat :=
  match cs with
  | [] => 0
  | c :: cs' =>
      (if negb (_artifact_downloaded (self m)) && _artifact_downloaded (self (after c m))
       then 1 else 0) + completed_fetches cs' (after c m)
  end.

(** The machines a process can be in: a freshly constructed object in some
    filesystem, then method calls, with other programs free to change the
    filesystem in between. *)
Inductive reachable : Machine -> Prop :=
| reach_new environ o r n p f :
    reachable (mkMachine (__init__ environ o r n p) f [])
| reach_call c m : reachable m -> reachable (after c m)
| reach_world f m : reachable m -> reachable (set_fs f m).
End ProcessDefs.

(** The flag stands for an archive unpacked into [self.path] and for an
    initialised base class. *)
Definition extracted (m : Machine) : Prop :=
  _artifact_downloaded (self m) = true ->
  base_initialised (self m) = true
  /\ exists f, In (EvUnpack f (path (self m)) "zip") (log m).

(** ** A concrete world, for examples *)

Module Demo.

Definition db1 : Artifact :=
  mkArtifact "db" "2023-01-05T10:00:00Z" "https://api.github.com/repos/octo/proj/actions/artifacts/1/zip".
Definition db2 : Artifact :=
  mkArtifact "db" "2023-02-07T10:00:00Z" "https://api.github.com/repos/octo/proj/actions/artifacts/2/zip".
Definition other : Artifact :=
  mkArtifact "other" "2023-03-01T10:00:00Z" "https://api.github.com/repos/octo/proj/actions/artifacts/3/zip".

Definition listing : list Artifact := [db1; db2; other].

(** A 200 answer of the listing endpoint. *)
Definition listing_response (l : list Artifact) : Response :=
  {| raise_for_status := None;
     json := Return {[ "artifacts" := l ]};
     content := [] |}.

(** A 200 answer of the download endpoint with the given body. *)
Definition archive_response (data : bytes) : Response :=
  {| raise_for_status := None;
     json := Raise (Exn RequestException "Expecting value: line 1 column 1 (char 0)" None);
     content := data |}.

Definition http_error : exn := Exn HTTPError "404 Client Error: Not Found" None.
Definition connection_error : exn := Exn ConnectionError "Failed to establish a new connection" None.

(** A 404 answer. *)
Definition error_response : Response :=
  {| raise_for_status := Some http_error;
     json := Return ∅;
     content := [] |}.

(** The bytes ["PK\x03\x04"] followed by one payload byte. *)
Definition archive : bytes := [Byte.x50; Byte.x4b; Byte.x03; Byte.x04; Byte.x2a].
(** An archive whose second member is damaged. *)
Definition damaged_archive : bytes := [Byte.x50; Byte.x4b; Byte.x03; Byte.x2a].
Definition not_an_archive : bytes := [Byte.x3c; Byte.x68].

Definition tmp : string := "/tmp/tmpk3v9x2".

(** A toy file buffer of three bytes: a body that fits stays in the buffer,
    a longer one is handed to the file at once. *)
Definition buffer_size : nat := 3.
Definition write_through (data : bytes) : bytes :=
  if Nat.leb (List.length data) buffer_size then [] else data.

(** A toy [unpack_archive]: a well-formed archive is extracted to one file,
    a damaged one leaves its first member behind and raises, anything else
    is rejected before a file is written. *)
Definition unpack (f : gmap string node) (filename extract_dir format : string)
  : option exn * gmap string node :=
  match f !! filename with
  | Some (File (Byte.x50 :: Byte.x4b :: Byte.x03 :: Byte.x04 :: data)) =>
      (None, <[extract_dir ++ "/data" := File data]> f)
  | Some (File (Byte.x50 :: Byte.x4b :: data)) =>
      (Some (Exn OSError "Bad CRC-32 for file 'second'" None),
       <[extract_dir ++ "/first" := File data]> f)
  | _ => (Some (Exn ReadError (filename ++ " is not a zip file") None), f)
  end.

(** A toy store: every key maps to the content of the one extracted file. *)
Definition store_fetch (f : gmap string node) (root : string) (key : bytes) : list bytes :=
  match f !! (root ++ "/data") with
  | Some (File d) => [d]
  | _ => []
  end.

(** A remote service that always gives the same two answers. *)
Definition env (listing_answer download_answer : outcome Response) : Env :=
  {| requests_get := fun _ r => if stream r then download_answer else listing_answer;
     mkstemp := fun _ => tmp;
     written_through := write_through;
     unpack_archive := unpack;
     DirectoryBasedExampleDatabase_fetch := store_fetch |}.

(** A remote service that cannot be reached for the first request and
    works afterwards. *)
Definition flaky_env : Env :=
  {| requests_get := fun history r =>
       if forallb (fun e => negb (is_network e)) history then Raise connection_error
       else if stream r then Return (archive_response archive)
       else Return (listing_response listing);
     mkstemp := fun _ => tmp;
     written_through := write_through;
     unpack_archive := unpack;
     DirectoryBasedExampleDatabase_fetch := store_fetch |}.

Definition good_env : Env :=
  env (Return (listing_response listing)) (Return (archive_response archive)).

(** The same service, with a file buffer large enough to hold the whole
    archive: nothing has reached the file when it is opened again. *)
Definition large_buffer_env : Env :=
  {| requests_get := requests_get good_env;
     mkstemp := mkstemp good_env;
     written_through := fun _ => [];
     unpack_archive := unpack;
     DirectoryBasedExampleDatabase_fetch := store_fetch |}.

(** A new object in an empty filesystem, with and without a token in the
    environment. *)
Definition new_machine : Machine :=
  mkMachine (__init__ {[ "GITHUB_TOKEN" := "ghp_0123" ]} "octo" "proj" "db" ".hypothesis/ci") ∅ [].
Definition new_machine_no_token : Machine :=
  mkMachine (__init__ ∅ "octo" "proj" "db" ".hypothesis/ci") ∅ [].

Definition key : bytes := [Byte.x6b].

End Demo.

(** * Properties *)

(** ** The order on [str] *)

Lemma str_lt_irrefl (a : string) : str_lt a a = false.
Proof.
  unfold str_lt, String.ltb.
  destruct (String.compare a a) eqn:C; try reflexivity.
  exfalso. exact (StrictOrder_Irreflexive (R := OrdersEx.String_as_OT.lt) a C).
Qed.

Lemma str_lt_trans (a b c : string) :
  str_lt a b = true -> str_lt b c = true -> str_lt a c = true.
Proof.
  unfold str_lt, String.ltb.
  destruct (String.compare a b) eqn:Cab; try discriminate.
  destruct (String.compare b c) eqn:Cbc; try discriminate.
  intros _ _.
  assert (H : OrdersEx.String_as_OT.lt a c)
    by exact (StrictOrder_Transitive (R := OrdersEx.String_as_OT.lt) a b c Cab Cbc).
  unfold OrdersEx.String_as_OT.lt in H.
  change (String.compare a c = Lt) in H. now rewrite H.
Qed.

Lemma str_lt_asym (a b : string) : str_lt a b = true -> str_lt b a = false.
Proof.
  intros H. destruct (str_lt b a) eqn:H'; [|reflexivity].
  pose proof (str_lt_trans _ _ _ H H') as T.
  rewrite str_lt_irrefl in T. discriminate.
Qed.

Lemma str_lt_connex (a b : string) :
  str_lt a b = false -> str_lt b a = false -> a = b.
Proof.
  unfold str_lt, String.ltb. rewrite (String.compare_antisym b a).
  destruct (String.compare a b) eqn:C; simpl; try discriminate.
  intros _ _. now apply String.compare_eq_iff.
Qed.

(** [c < b] and [not (a < b)] give [c < a]. *)
Lemma str_lt_le_trans (a b c : string) :
  str_lt c b = true -> str_lt a b = false -> str_lt c a = true.
Proof.
  intros Hcb Hab. destruct (str_lt b a) eqn:Hba.
  - eapply str_lt_trans; eassumption.
  - now rewrite (str_lt_connex a b Hab Hba).
Qed.

(** [not (b < a)] and [b < c] give [a < c]. *)
Lemma str_le_lt_trans (a b c : string) :
  str_lt b a = false -> str_lt b c = true -> str_lt a c = true.
Proof.
  intros Hba Hbc. destruct (str_lt a b) eqn:Hab.
  - eapply str_lt_trans; eassumption.
  - now rewrite (str_lt_connex a b Hab Hba).
Qed.

Lemma str_le_refl (a : string) : str_le a a = true.
Proof. unfold str_le. now rewrite str_lt_irrefl. Qed.

Lemma str_le_trans (a b c : string) :
  str_le a b = true -> str_le b c = true -> str_le a c = true.
Proof.
  unfold str_le. rewrite !negb_true_iff. intros Hba Hcb.
  destruct (str_lt c a) eqn:Hca; [|reflexivity].
  pose proof (str_lt_le_trans b a c Hca Hba) as T. congruence.
Qed.

Lemma str_lt_le (a b : string) : str_lt a b = true -> str_le a b = true.
Proof. intros H. unfold str_le. now rewrite (str_lt_asym _ _ H). Qed.

(** ** [sorted] is a stable ascending sort *)

Section SortedFacts.
Context {A : Type} (key : A -> string).

Lemma sorted_insert_perm (x : A) (l : list A) :
  Permutation (sorted_insert key x l) (x :: l).
Proof.
  induction l as [|y r IH]; simpl; [reflexivity|].
  destruct (str_lt (key y) (key x)); [|reflexivity].
  rewrite IH. apply perm_swap.
Qed.

Lemma sorted_perm (l : list A) : Permutation (sorted key l) l.
Proof.
  induction l as [|x r IH]; simpl; [reflexivity|].
  rewrite sorted_insert_perm. now constructor.
Qed.

Lemma sorted_insert_In (x y : A) (l : list A) :
  y ∈ sorted_insert key x l <-> y = x \/ y ∈ l.
Proof. rewrite sorted_insert_perm. apply elem_of_cons. Qed.

Lemma sorted_insert_ascending (x : A) (l : list A) :
  StronglySorted (key_le key) l -> StronglySorted (key_le key) (sorted_insert key x l).
Proof.
  induction 1 as [|y r Hr IH Hy]; simpl.
  - repeat constructor.
  - destruct (str_lt (key y) (key x)) eqn:Hyx.
    + constructor; [exact IH|].
      apply Forall_forall. intros z Hz.
      apply sorted_insert_In in Hz. destruct Hz as [->|Hz].
      * now apply str_lt_le.
      * rewrite Forall_forall in Hy. now apply Hy.
    + assert (Hxy : key_le key x y) by (unfold key_le, str_le; now rewrite Hyx).
      constructor; [now constructor|].
      constructor; [exact Hxy|].
      eapply List.Forall_impl; [|exact Hy].
      intros z Hz. eapply str_le_trans; eassumption.
Qed.

Lemma sorted_ascending (l : list A) : StronglySorted (key_le key) (sorted key l).
Proof.
  induction l as [|x r IH]; simpl; [constructor|].
  now apply sorted_insert_ascending.
Qed.

(** Elements with equal keys keep their input order. *)
Lemma sorted_insert_stable (k : string) (x : A) (l : list A) :
  List.filter (fun a => String.eqb (key a) k) (sorted_insert key x l)
  = List.filter (fun a => String.eqb (key a) k) (x :: l).
Proof.
  induction l as [|y r IH]; simpl; [reflexivity|].
  destruct (str_lt (key y) (key x)) eqn:Hyx; [|reflexivity].
  simpl in *. rewrite IH.
  destruct (String.eqb_spec (key x) k) as [Hx|Hx];
    destruct (String.eqb_spec (key y) k) as [Hy|Hy]; try reflexivity.
  rewrite Hx, Hy, str_lt_irrefl in Hyx. discriminate.
Qed.

Lemma sorted_stable (k : string) (l : list A) :
  List.filter (fun a => String.eqb (key a) k) (sorted key l)
  = List.filter (fun a => String.eqb (key a) k) l.
Proof.
  induction l as [|x r IH]; simpl; [reflexivity|].
  rewrite sorted_insert_stable. simpl. now rewrite IH.
Qed.

(** *** The last element of the sorted list *)

Lemma last_sorted_insert (x : A) (l : list A) :
  StronglySorted (key_le key) l ->
  last (sorted_insert key x l) = later_max key x (last l).
Proof.
  induction 1 as [|y r Hr IH Hy]; [reflexivity|].
  cbn [sorted_insert].
  destruct (str_lt (key y) (key x)) eqn:Hyx.
  - rewrite last_cons, IH, (last_cons y r).
    destruct (last r) as [z|]; simpl.
    + now destruct (str_lt (key z) (key x)).
    + now rewrite Hyx.
  - rewrite last_cons. destruct (last (y :: r)) as [z|] eqn:Hz.
    + simpl. destruct (str_lt (key z) (key x)) eqn:Hzx; [|reflexivity].
      exfalso.
      assert (Hyz : key_le key y z).
      { rewrite last_cons in Hz. destruct (last r) as [z'|] eqn:Hr'.
        - injection Hz as <-. rewrite Forall_forall in Hy. apply Hy.
          apply last_Some_elem_of in Hr'. exact Hr'.
        - injection Hz as <-. apply str_le_refl. }
      unfold key_le, str_le in Hyz. rewrite negb_true_iff in Hyz.
      pose proof (str_le_lt_trans _ _ _ Hyz Hzx). congruence.
    + rewrite last_cons in Hz. destruct (last r); discriminate.
Qed.

Lemma last_sorted (l : list A) : last (sorted key l) = latest key l.
Proof.
  induction l as [|x r IH]; [reflexivity|].
  simpl. rewrite last_sorted_insert by apply sorted_ascending.
  now rewrite IH.
Qed.

Lemma latest_None (l : list A) : latest key l = None -> l = [].
Proof.
  destruct l as [|x r]; [reflexivity|]. simpl.
  destruct (latest key r) as [y|]; simpl; [|discriminate].
  destruct (str_lt (key y) (key x)); discriminate.
Qed.

(** Where the chosen element stands: nothing before it is greater and
    everything after it is strictly smaller. *)
Lemma latest_position (l : list A) (a : A) :
  latest key l = Some a ->
  exists l1 l2, l = (l1 ++ a :: l2)%list
    /\ Forall (fun b => str_le (key b) (key a) = true) l1
    /\ Forall (fun b => str_lt (key b) (key a) = true) l2.
Proof.
  revert a. induction l as [|x r IH]; intros a; [discriminate|].
  simpl. destruct (latest key r) as [y|] eqn:Hr; simpl.
  - destruct (IH y eq_refl) as (r1 & r2 & -> & H1 & H2).
    destruct (str_lt (key y) (key x)) eqn:Hyx; intros [= <-].
    + exists [], (r1 ++ y :: r2)%list. repeat split; [constructor|].
      apply Forall_app. split; [|constructor].
      * eapply List.Forall_impl; [|exact H1]. intros b Hb. simpl in Hb.
        unfold str_le in Hb. rewrite negb_true_iff in Hb.
        eapply str_le_lt_trans; eassumption.
      * exact Hyx.
      * eapply List.Forall_impl; [|exact H2]. intros b Hb. simpl in Hb.
        eapply str_lt_trans; eassumption.
    + exists (x :: r1), r2. repeat split; [|exact H2].
      constructor; [|exact H1]. unfold str_le. now rewrite Hyx.
  - intros [= <-]. apply latest_None in Hr. subst r.
    exists [], []. repeat split; constructor.
Qed.

End SortedFacts.

(** ** Selection *)

Lemma filter_app_cons_inv {A : Type} (f : A -> bool) (l l1 l2 : list A) (a : A) :
  List.filter f l = (l1 ++ a :: l2)%list ->
  exists p1 p2, l = (p1 ++ a :: p2)%list /\ f a = true
    /\ List.filter f p1 = l1 /\ List.filter f p2 = l2.
Proof.
  revert l1. induction l as [|x r IH]; intros l1 H; simpl in H.
  - destruct l1; discriminate.
  - destruct (f x) eqn:Hx.
    + destruct l1 as [|y l1]; simpl in H.
      * injection H as -> H. exists [], r. simpl. auto.
      * injection H as -> H. destruct (IH _ H) as (p1 & p2 & -> & Ha & H1 & H2).
        exists (y :: p1), p2. simpl. rewrite Hx, H1. auto.
    + destruct (IH _ H) as (p1 & p2 & -> & Ha & H1 & H2).
      exists (x :: p1), p2. simpl. rewrite Hx. auto.
Qed.

Lemma select_artifact_latest (n : string) (l : list Artifact) :
  select_artifact n l =
  match latest created_at (List.filter (name_matches n) l) with
  | Some a => Return a
  | None => Raise (Exn IndexError "list index out of range" None)
  end.
Proof. unfold select_artifact, index_last. now rewrite last_sorted. Qed.

Lemma name_matches_iff (n : string) (a : Artifact) :
  name_matches n a = true <-> name a = n.
Proof. unfold name_matches. apply String.eqb_eq. Qed.

(** The selected descriptor and its place in the listing. *)
Lemma select_artifact_Return (n : string) (l : list Artifact) (a : Artifact) :
  select_artifact n l = Return a ->
  exists p1 p2, l = (p1 ++ a :: p2)%list /\ name a = n
    /\ (forall b, b ∈ p1 -> name b = n -> str_le (created_at b) (created_at a) = true)
    /\ (forall b, b ∈ p2 -> name b = n -> str_lt (created_at b) (created_at a) = true).
Proof.
  rewrite select_artifact_latest.
  destruct (latest _ _) as [a'|] eqn:L; [|discriminate]. intros [= ->].
  destruct (latest_position _ _ _ L) as (l1 & l2 & Hl & H1 & H2).
  destruct (filter_app_cons_inv _ _ _ _ _ Hl) as (p1 & p2 & -> & Ha & <- & <-).
  exists p1, p2. split; [reflexivity|]. split; [now apply name_matches_iff|].
  rewrite Forall_forall in H1, H2.
  split; intros b Hb Hn; [apply H1 | apply H2];
    apply list_elem_of_In, filter_In; (split; [now apply list_elem_of_In | now apply name_matches_iff]).
Qed.

Lemma select_artifact_matching (n : string) (l : list Artifact) :
  (exists b, b ∈ l /\ name b = n) -> exists a, select_artifact n l = Return a.
Proof.
  intros (b & Hb & Hn). rewrite select_artifact_latest.
  destruct (latest _ _) as [a|] eqn:L; [now exists a|].
  apply latest_None in L.
  assert (Hin : In b (List.filter (name_matches n) l)).
  { apply filter_In. split; [now apply list_elem_of_In | now apply name_matches_iff]. }
  rewrite L in Hin. destruct Hin.
Qed.

Lemma select_artifact_no_match (n : string) (l : list Artifact) :
  (forall b, b ∈ l -> name b <> n) ->
  select_artifact n l = Raise (Exn IndexError "list index out of range" None).
Proof.
  intros H. rewrite select_artifact_latest.
  destruct (latest _ _) as [a|] eqn:L; [|reflexivity].
  destruct (latest_position _ _ _ L) as (l1 & l2 & Hl & _).
  assert (Hin : In a (List.filter (name_matches n) l)).
  { rewrite Hl. apply in_or_app. right. now left. }
  apply filter_In in Hin. destruct Hin as [Hin Hn].
  apply name_matches_iff in Hn. apply list_elem_of_In in Hin.
  now destruct (H a Hin).
Qed.

(** ** Walking through [_fetch_artifact] *)

Lemma handle_request_error_translate {A : Type} (msg : string) (e : exn) (m : Machine) :
  @handle_request_error A msg e m = (Raise (translate msg e), m).
Proof.
  unfold handle_request_error, translate, raise.
  destruct (isinstance e ConnectionError); [reflexivity|].
  destruct (isinstance e HTTPError); reflexivity.
Qed.

Section Walk.
Variable E : Env.

Ltac run_monad :=
  unfold mbind, M_bind, mret, M_ret, get_self, try_except, get, check_status,
    lift, raise, modify, file_write, do_mkdir_p, do_unpack_archive,
    with_NamedTemporaryFile; cbn beta iota.

Lemma fetch_artifact_path (m : Machine) (r : outcome unit) (m' : Machine) :
  _fetch_artifact E m = (r, m') -> fetch_path E m r m'.
Proof.
  unfold _fetch_artifact. run_monad.
  destruct (_artifact_downloaded (self m)) eqn:Hd;
    [intros [= <- <-]; now apply path_cached|].
  pose proof (eq_refl (listing_outcome E m)) as HL.
  unfold listing_outcome at 2 in HL.
  destruct (requests_get E (log m) (listing_request (self m))) as [res|e1].
  2: { rewrite handle_request_error_translate. intros [= <- <-].
       now apply path_listing_failed. }
  destruct (raise_for_status res) as [e2|].
  1: { rewrite handle_request_error_translate. intros [= <- <-].
       now apply path_listing_failed. }
  unfold mret, M_ret. cbn beta iota.
  destruct (json res) as [body|e3].
  2: { rewrite handle_request_error_translate. intros [= <- <-].
       now apply path_listing_failed. }
  destruct (dict_getitem body "artifacts") as [artifacts|e4].
  2: { rewrite handle_request_error_translate. intros [= <- <-].
       now apply path_listing_failed. }
  cbn beta iota.
  destruct (select_artifact (artifact_name (self m)) artifacts) as [a|e] eqn:HS.
  2: { intros [= <- <-]. eapply path_nothing_selected; eauto. }
  pose proof (eq_refl (download_outcome E m a)) as HD.
  unfold download_outcome at 2 in HD.
  cbn [listed emit log self fs set_fs] in HD |- *. unfold modify.
  destruct (requests_get E _ (download_request (self m) a)) as [req|e1].
  2: { rewrite handle_request_error_translate. intros [= <- <-].
       eapply path_download_failed; eauto. }
  destruct (raise_for_status req) as [e2|]; cbn beta iota.
  1: { rewrite handle_request_error_translate. intros [= <- <-].
       eapply path_download_failed; eauto. }
  pose proof (eq_refl (unpack_outcome E m a req)) as HU.
  unfold unpack_outcome at 2, buffered, requested, listed in HU.
  cbn [emit log self fs set_fs] in HU |- *.
  destruct (unpack_archive E _ _ _ _) as [[e|] fs']; intros [= <- <-].
  - match goal with |- fetch_path _ _ _ ?mm =>
      replace mm with (closed E m (unpacked E m a req)) end.
    + eapply path_unpack_failed; eauto. now rewrite HU.
    + unfold closed, unpacked, buffered, requested, listed. now rewrite HU.
  - match goal with |- fetch_path _ _ _ ?mm =>
      replace mm with
        (set_self (set_artifact_downloaded true (super_init (path (self m)) (self m)))
                  (closed E m (unpacked E m a req))) end.
    + eapply path_success; eauto. now rewrite HU.
    + unfold closed, unpacked, buffered, requested, listed. now rewrite HU.
Qed.
End Walk.

Section Process.
Variable E : Env.

Lemma fetch_artifact_total (m : Machine) :
  exists r m', _fetch_artifact E m = (r, m') /\ fetch_path E m r m'.
Proof.
  destruct (_fetch_artifact E m) as [r m'] eqn:H.
  exists r, m'. split; [reflexivity|]. now apply fetch_artifact_path.
Qed.

Lemma fetch_artifact_cached (m : Machine) :
  _artifact_downloaded (self m) = true -> _fetch_artifact E m = (Return tt, m).
Proof.
  intros Hd. destruct (fetch_artifact_total m) as (r & m' & Heq & P).
  rewrite Heq. inversion P; subst; congruence.
Qed.

Lemma fetch_artifact_listing_failed (m : Machine) (e : exn) :
  _artifact_downloaded (self m) = false ->
  listing_outcome E m = Raise e ->
  _fetch_artifact E m = (Raise (translate msg_connect_listing e), listed m).
Proof.
  intros Hd HL. destruct (fetch_artifact_total m) as (r & m' & Heq & P).
  rewrite Heq. inversion P; subst; congruence.
Qed.

Lemma fetch_artifact_nothing_selected (m : Machine) (artifacts : list Artifact) (e : exn) :
  _artifact_downloaded (self m) = false ->
  listing_outcome E m = Return artifacts ->
  select_artifact (artifact_name (self m)) artifacts = Raise e ->
  _fetch_artifact E m = (Raise e, listed m).
Proof.
  intros Hd HL HS. destruct (fetch_artifact_total m) as (r & m' & Heq & P).
  rewrite Heq. inversion P; subst; congruence.
Qed.

Lemma fetch_artifact_download_failed (m : Machine) artifacts a e :
  _artifact_downloaded (self m) = false ->
  listing_outcome E m = Return artifacts ->
  select_artifact (artifact_name (self m)) artifacts = Return a ->
  download_outcome E m a = Raise e ->
  _fetch_artifact E m
  = (Raise (translate msg_connect_download e), closed E m (requested E m a)).
Proof.
  intros Hd HL HS HD. destruct (fetch_artifact_total m) as (r & m' & Heq & P).
  rewrite Heq. inversion P; subst; congruence.
Qed.

Lemma fetch_artifact_unpack_failed (m : Machine) artifacts a req e :
  _artifact_downloaded (self m) = false ->
  listing_outcome E m = Return artifacts ->
  select_artifact (artifact_name (self m)) artifacts = Return a ->
  download_outcome E m a = Return req ->
  fst (unpack_outcome E m a req) = Some e ->
  _fetch_artifact E m = (Raise e, closed E m (unpacked E m a req)).
Proof.
  intros Hd HL HS HD HU. destruct (fetch_artifact_total m) as (r & m' & Heq & P).
  rewrite Heq. inversion P; subst; congruence.
Qed.

Lemma fetch_artifact_success (m : Machine) artifacts a req :
  _artifact_downloaded (self m) = false ->
  listing_outcome E m = Return artifacts ->
  select_artifact (artifact_name (self m)) artifacts = Return a ->
  download_outcome E m a = Return req ->
  fst (unpack_outcome E m a req) = None ->
  _fetch_artifact E m
  = (Return tt,
     set_self (set_artifact_downloaded true (super_init (path (self m)) (self m)))
              (closed E m (unpacked E m a req))).
Proof.
  intros Hd HL HS HD HU. destruct (fetch_artifact_total m) as (r & m' & Heq & P).
  rewrite Heq. inversion P; subst; congruence.
Qed.

End Process.

Example demo_select : select_artifact "db" Demo.listing = Return Demo.db2.
Proof. reflexivity. Qed.

Example demo_fetch :
  fst (fetch Demo.good_env Demo.key Demo.new_machine) = Return [[Byte.x2a]].
Proof. vm_compute. reflexivity. Qed.

(** ** The object and the log along a call *)

Section Frames.
Variable E : Env.

Lemma fetch_unfold (key : bytes) (m : Machine) :
  fetch E key m =
  match _fetch_artifact E m with
  | (Return _, m') => super_fetch E key m'
  | (Raise e, m') => (Raise e, m')
  end.
Proof. reflexivity. Qed.

(** Only the last two statements of [_fetch_artifact] assign to the
    object. *)
Lemma fetch_path_self (m : Machine) (r : outcome unit) (m' : Machine) :
  fetch_path E m r m' ->
  match r with
  | Raise _ => self m' = self m /\ _artifact_downloaded (self m) = false
  | Return _ =>
      (_artifact_downloaded (self m) = true /\ m' = m)
      \/ (_artifact_downloaded (self m) = false
          /\ self m' = set_artifact_downloaded true (super_init (path (self m)) (self m)))
  end.
Proof. destruct 1; cbn; auto. Qed.

(** What [_fetch_artifact] appends to the log. *)
Lemma fetch_path_log (m : Machine) (r : outcome unit) (m' : Machine) :
  fetch_path E m r m' ->
  _artifact_downloaded (self m) = false ->
  exists rest, log m' = (log m ++ EvGet (listing_request (self m)) :: rest)%list.
Proof.
  destruct 1; intros Hd; try congruence; cbn; rewrite <- ?app_assoc; cbn;
    eexists; reflexivity.
Qed.

Lemma super_fetch_self (key : bytes) (m : Machine) :
  self (snd (super_fetch E key m)) = self m.
Proof. unfold super_fetch. now destruct (base_initialised (self m)). Qed.

Lemma after_self (c : call) (m : Machine) :
  self (after E c m) = self m
  \/ (exists key, c = Fetch key)
     /\ _artifact_downloaded (self m) = false
     /\ self (after E c m) = set_artifact_downloaded true (super_init (path (self m)) (self m)).
Proof.
  destruct c as [key|k v|k v|k v]; cbn; auto.
  rewrite fetch_unfold.
  destruct (_fetch_artifact E m) as [r m'] eqn:H.
  apply fetch_artifact_path, fetch_path_self in H.
  destruct r as [[]|e].
  - rewrite super_fetch_self. destruct H as [[_ ->]|[Hd H]]; eauto.
  - cbn. now left.
Qed.

Lemma after_path (c : call) (m : Machine) : path (self (after E c m)) = path (self m).
Proof. destruct (after_self c m) as [->|(_ & _ & ->)]; reflexivity. Qed.

(** The flag never goes back to [False]. *)
Lemma after_downloaded (c : call) (m : Machine) :
  _artifact_downloaded (self m) = true ->
  _artifact_downloaded (self (after E c m)) = true.
Proof.
  intros Hd. destruct (after_self c m) as [->|(_ & Hf & _)]; congruence.
Qed.

Lemma run_downloaded (cs : list call) (m : Machine) :
  _artifact_downloaded (self m) = true ->
  _artifact_downloaded (self (run E cs m)) = true.
Proof.
  revert m. induction cs as [|c cs IH]; intros m Hd; [exact Hd|].
  cbn. apply IH. now apply after_downloaded.
Qed.

(** Once the flag is set a call sends nothing over the network. *)
Lemma after_network_cached (c : call) (m : Machine) :
  _artifact_downloaded (self m) = true ->
  List.filter is_network (log (after E c m)) = List.filter is_network (log m).
Proof.
  intros Hd. destruct c as [key|k v|k v|k v]; cbn; try reflexivity.
  rewrite fetch_unfold, (fetch_artifact_cached E m Hd).
  unfold super_fetch. destruct (base_initialised (self m)); cbn; [|reflexivity].
  rewrite List.filter_app. cbn. apply app_nil_r.
Qed.

Lemma run_network_cached (cs : list call) (m : Machine) :
  _artifact_downloaded (self m) = true ->
  List.filter is_network (log (run E cs m)) = List.filter is_network (log m).
Proof.
  revert m. induction cs as [|c cs IH]; intros m Hd; [reflexivity|].
  change (run E (c :: cs) m) with (run E cs (after E c m)).
  rewrite IH by now apply after_downloaded.
  now apply after_network_cached.
Qed.

Lemma completed_fetches_cached (cs : list call) (m : Machine) :
  _artifact_downloaded (self m) = true -> completed_fetches E cs m = 0.
Proof.
  revert m. induction cs as [|c cs IH]; intros m Hd; [reflexivity|].
  cbn. rewrite Hd. cbn. apply IH. now apply after_downloaded.
Qed.

Lemma completed_fetches_le_1 (cs : list call) (m : Machine) :
  completed_fetches E cs m <= 1.
Proof.
  revert m. induction cs as [|c cs IH]; intros m; cbn; [lia|].
  destruct (_artifact_downloaded (self m)) eqn:Hd; cbn; [apply IH|].
  destruct (_artifact_downloaded (self (after E c m))) eqn:Hd'; [|apply IH].
  rewrite completed_fetches_cached by exact Hd'. lia.
Qed.

(** *** What holds of every machine a process can be in *)

Lemma after_log (c : call) (m : Machine) :
  exists evs, log (after E c m) = (log m ++ evs)%list.
Proof.
  destruct c as [key|k v|k v|k v]; cbn; try (exists []; now rewrite app_nil_r).
  rewrite fetch_unfold.
  destruct (_fetch_artifact E m) as [r m'] eqn:H.
  apply fetch_artifact_path in H.
  assert (Hl : exists evs, log m' = (log m ++ evs)%list).
  { destruct (_artifact_downloaded (self m)) eqn:Hd.
    - inversion H; subst; try congruence. exists []. now rewrite app_nil_r.
    - destruct (fetch_path_log _ _ _ H Hd) as [rest ->]. eauto. }
  destruct Hl as [evs Hl]. destruct r as [[]|e]; cbn; [|eauto].
  unfold super_fetch. destruct (base_initialised (self m')); cbn; [|eauto].
  rewrite Hl, <- app_assoc. eauto.
Qed.

Lemma fetch_path_extracted (m : Machine) (m' : Machine) :
  fetch_path E m (Return tt) m' -> extracted m -> extracted m'.
Proof.
  inversion 1; subst; [auto|]. intros _ _. cbn. split; [reflexivity|].
  exists (mkstemp E (fs m)). apply in_or_app. left. apply in_or_app. right. now left.
Qed.

Lemma reachable_extracted (m : Machine) : reachable E m -> extracted m.
Proof.
  induction 1 as [environ o r n p f | c m Hm IH | f m Hm IH].
  - intros Hd. discriminate.
  - destruct c as [key|k v|k v|k v]; cbn; try exact IH.
    rewrite fetch_unfold.
    destruct (_fetch_artifact E m) as [r m'] eqn:H.
    apply fetch_artifact_path in H. destruct r as [[]|e].
    + pose proof (fetch_path_extracted _ _ H IH) as X.
      unfold super_fetch. destruct (base_initialised (self m')) eqn:Hb; cbn; [|exact X].
      intros Hd. destruct (X Hd) as [_ [f Hf]]. split; [exact Hb|].
      exists f. apply in_or_app. now left.
    + cbn. apply fetch_path_self in H. destruct H as [Hs Hd]. intros Hd'.
      rewrite Hs in Hd'. congruence.
  - exact IH.
Qed.

End Frames.

(** * The behaviour of the database *)

(** ** Read-only interface *)

(** C1. In every state of the object and of the world, before or after a
    fetch, [save], [move] and [delete] raise the error whose message tells the
    caller to wrap the database in [ReadOnlyDatabase]; the machine they leave
    is the one they were called in: no request is sent, the filesystem is
    untouched and nothing is added to the log of I/O. *)
Theorem mutators_read_only (E : Env) (key value : bytes) (m : Machine) :
  save key value m = (Raise (Exn RuntimeError msg_read_only None), m)
  /\ move key value m = (Raise (Exn RuntimeError msg_read_only None), m)
  /\ delete key value m = (Raise (Exn RuntimeError msg_read_only None), m)
  /\ run E [Save key value; Move key value; Delete key value] m = m
  /\ str_contains "This database is read-only" msg_read_only = true
  /\ str_contains "wrap this class with ReadOnlyDatabase" msg_read_only = true.
Proof.
  assert (Hmsg : str_contains "wrap this class with ReadOnlyDatabase" msg_read_only = true)
    by (vm_compute; reflexivity).
  unfold save, move, delete, raise.
  repeat split; try reflexivity; exact Hmsg.
Qed.

(** ** Reads after the download *)

(** C2 as stated fails in its last clause: a fetch whose listing and download
    succeed and whose extraction fails leaves the flag unset, so the next
    read sends both requests again. Two reads, two round trips. *)
Lemma round_trip_repeated_counterexample :
  let E :=
    Demo.env (Return (Demo.listing_response Demo.listing))
             (Return (Demo.archive_response Demo.damaged_archive)) in
  let d := self Demo.new_machine in
  let m1 := after E (Fetch Demo.key) Demo.new_machine in
  let m2 := after E (Fetch Demo.key) m1 in
  _artifact_downloaded (self m1) = false
  /\ List.filter is_network (log m1)
     = [EvGet (listing_request d); EvGet (download_request d Demo.db2)]
  /\ List.filter is_network (log m2)
     = [EvGet (listing_request d); EvGet (download_request d Demo.db2);
        EvGet (listing_request d); EvGet (download_request d Demo.db2)].
Proof. cbv zeta. repeat split; vm_compute; reflexivity. Qed.

(** C2, amended. In a machine a process can reach with the flag set,
    [fetch(key)] sends no request and returns what
    [DirectoryBasedExampleDatabase.fetch] yields for the key below
    [self.path], the directory the archive was unpacked into; whatever calls
    follow, the requests in the log stay the ones already there, and along
    any run at most one call turns the flag from unset to set: the round trip
    of a fetch that succeeded is never repeated. *)
Theorem cached_fetch_delegates (E : Env) (m : Machine) (key : bytes) :
  reachable E m ->
  _artifact_downloaded (self m) = true ->
  fetch E key m
  = (Return (DirectoryBasedExampleDatabase_fetch E (fs m) (path (self m)) key),
     emit (EvStoreRead (path (self m)) key) m)
  /\ (exists f, In (EvUnpack f (path (self m)) "zip") (log m))
  /\ (forall cs, List.filter is_network (log (run E cs m)) = List.filter is_network (log m))
  /\ (forall cs m0, completed_fetches E cs m0 <= 1).
Proof.
  intros Hr Hd. destruct (reachable_extracted E m Hr Hd) as [Hb Hu].
  repeat split.
  - rewrite fetch_unfold, (fetch_artifact_cached E m Hd).
    unfold super_fetch. now rewrite Hb.
  - exact Hu.
  - intros cs. now apply run_network_cached.
  - intros cs m0. apply completed_fetches_le_1.
Qed.

Lemma cached_fetch_delegates_witness :
  let m := after Demo.good_env (Fetch Demo.key) Demo.new_machine in
  fetch Demo.good_env Demo.key m
  = (Return [[Byte.x2a]], emit (EvStoreRead ".hypothesis/ci" Demo.key) m)
  /\ List.filter is_network (log (run Demo.good_env [Fetch Demo.key; Save Demo.key Demo.key] m))
     = List.filter is_network (log m).
Proof.
  intros m.
  destruct (cached_fetch_delegates Demo.good_env m Demo.key) as (H1 & _ & H3 & _).
  - apply reach_call, reach_new.
  - reflexivity.
  - split; [exact H1 | apply H3].
Defined.

(** ** Which artifact is downloaded *)

(** Once an artifact is selected, the next request is its download, and no
    other request follows. *)
Lemma fetch_path_selected (E : Env) (m : Machine) (r : outcome unit) (m' : Machine)
    (artifacts : list Artifact) (a : Artifact) :
  fetch_path E m r m' ->
  _artifact_downloaded (self m) = false ->
  listing_outcome E m = Return artifacts ->
  select_artifact (artifact_name (self m)) artifacts = Return a ->
  (exists rest,
      log m' = (log m ++ [EvGet (listing_request (self m));
                          EvTempCreate (mkstemp E (fs m));
                          EvGet (download_request (self m) a)] ++ rest)%list)
  /\ List.filter is_network (log m')
     = (List.filter is_network (log m)
        ++ [EvGet (listing_request (self m)); EvGet (download_request (self m) a)])%list.
Proof.
  intros P Hd HL HS.
  inversion P; subst; try congruence;
    match goal with
    | H1 : listing_outcome E m = Return ?l, H2 : select_artifact _ ?l = Return ?b |- _ =>
        assert (l = artifacts) by congruence; subst l;
        assert (b = a) by congruence; subst b
    end;
    (split;
     [ cbn; rewrite <- ?app_assoc; cbn; eexists; reflexivity
     | cbn; rewrite !List.filter_app; cbn; rewrite <- ?app_assoc; cbn; reflexivity ]).
Qed.

(** C3. When the listing holds a descriptor named [artifact_name], the
    fetch selects one of them whose [created_at] no other matching descriptor
    exceeds, and the download request, the only other request it sends, goes
    to that descriptor's [archive_download_url]. For the listing
    [db@t1, db@t2, other@t3] with [t1 < t2] the one created at [t2] is
    selected. The choice is a function of the artifact name and of the
    listing in the order received. *)
Theorem latest_matching_artifact_downloaded :
  (forall (E : Env) (m : Machine) (artifacts : list Artifact),
      _artifact_downloaded (self m) = false ->
      listing_outcome E m = Return artifacts ->
      (exists b, b ∈ artifacts /\ name b = artifact_name (self m)) ->
      exists a,
        select_artifact (artifact_name (self m)) artifacts = Return a
        /\ a ∈ artifacts
        /\ name a = artifact_name (self m)
        /\ (forall b, b ∈ artifacts -> name b = artifact_name (self m) ->
                      str_le (created_at b) (created_at a) = true)
        /\ (exists rest,
               log (snd (_fetch_artifact E m))
               = (log m ++ [EvGet (listing_request (self m));
                            EvTempCreate (mkstemp E (fs m));
                            EvGet (download_request (self m) a)] ++ rest)%list)
        /\ List.filter is_network (log (snd (_fetch_artifact E m)))
           = (List.filter is_network (log m)
              ++ [EvGet (listing_request (self m));
                  EvGet (download_request (self m) a)])%list
        /\ url (download_request (self m) a) = archive_download_url a)
  /\ (forall t1 t2 t3 u1 u2 u3 : string,
         str_lt t1 t2 = true ->
         select_artifact "db"
           [mkArtifact "db" t1 u1; mkArtifact "db" t2 u2; mkArtifact "other" t3 u3]
         = Return (mkArtifact "db" t2 u2))
  /\ (forall (m1 m2 : Machine) (artifacts : list Artifact) (a1 a2 : Artifact),
         artifact_name (self m1) = artifact_name (self m2) ->
         select_artifact (artifact_name (self m1)) artifacts = Return a1 ->
         select_artifact (artifact_name (self m2)) artifacts = Return a2 ->
         a1 = a2).
Proof.
  split; [|split].
  - intros E m artifacts Hd HL Hex.
    destruct (select_artifact_matching _ _ Hex) as [a HS].
    exists a. split; [exact HS|].
    destruct (select_artifact_Return _ _ _ HS) as (p1 & p2 & -> & Hn & H1 & H2).
    split; [apply elem_of_app; right; left|].
    split; [exact Hn|].
    split.
    { intros b Hb Hbn. apply elem_of_app in Hb. destruct Hb as [Hb|Hb]; [now apply H1|].
      apply elem_of_cons in Hb. destruct Hb as [->|Hb]; [apply str_le_refl|].
      apply str_lt_le. now apply H2. }
    destruct (_fetch_artifact E m) as [r m'] eqn:HF. cbn [snd].
    apply fetch_artifact_path in HF.
    destruct (fetch_path_selected E m r m' _ a HF Hd HL HS) as [Hlog Hnet].
    repeat split; assumption.
  - intros t1 t2 t3 u1 u2 u3 Hlt.
    unfold select_artifact. cbn. rewrite (str_lt_asym _ _ Hlt). reflexivity.
  - intros m1 m2 artifacts a1 a2 Hn H1 H2. rewrite Hn in H1. congruence.
Qed.

Lemma latest_matching_artifact_downloaded_witness :
  (exists a,
      select_artifact "db" Demo.listing = Return a
      /\ a = Demo.db2
      /\ List.filter is_network (log (snd (_fetch_artifact Demo.good_env Demo.new_machine)))
         = [EvGet (listing_request (self Demo.new_machine));
            EvGet (download_request (self Demo.new_machine) a)])
  /\ select_artifact "db"
       [mkArtifact "db" "2023-01-05T10:00:00Z" "u1";
        mkArtifact "db" "2023-02-07T10:00:00Z" "u2";
        mkArtifact "other" "2023-03-01T10:00:00Z" "u3"]
     = Return (mkArtifact "db" "2023-02-07T10:00:00Z" "u2").
Proof.
  destruct latest_matching_artifact_downloaded as (H1 & H2 & _). split.
  - destruct (H1 Demo.good_env Demo.new_machine Demo.listing) as (a & HS & _ & _ & _ & _ & Hnet & _).
    + reflexivity.
    + reflexivity.
    + exists Demo.db1. split; [left | reflexivity].
    + exists a. split; [exact HS|]. split; [|exact Hnet].
      cbv in HS. now injection HS as <-.
  - apply H2. reflexivity.
Defined.

(** C10. [created_at] values are compared as strings. For every listing the
    selected descriptor is the last element of the matching descriptors
    stably sorted by that string: the sorted list is an ascending
    rearrangement that keeps descriptors with equal strings in listing
    order. In the listing the selected descriptor is preceded only by
    matching descriptors whose string is not greater and followed only by
    matching descriptors whose string is strictly smaller, so among several
    with the greatest string the latest in the listing is taken. With
    strings that are not in one sortable format the order is the strings',
    not the dates': ["2023-9-30..."] wins over ["2023-10-01..."]. *)
Theorem selection_by_created_at_string (n : string) (l : list Artifact) :
  let matching := List.filter (name_matches n) l in
  let s := sorted created_at matching in
  select_artifact n l = index_last s
  /\ Permutation s matching
  /\ StronglySorted (fun a b => str_le (created_at a) (created_at b) = true) s
  /\ (forall k, List.filter (fun a => String.eqb (created_at a) k) s
                = List.filter (fun a => String.eqb (created_at a) k) matching)
  /\ (forall a, select_artifact n l = Return a ->
        exists p1 p2, l = (p1 ++ a :: p2)%list
          /\ name a = n
          /\ (forall b, b ∈ p1 -> name b = n -> str_le (created_at b) (created_at a) = true)
          /\ (forall b, b ∈ p2 -> name b = n -> str_lt (created_at b) (created_at a) = true))
  /\ (forall t u1 u2 : string,
        select_artifact n [mkArtifact n t u1; mkArtifact n t u2] = Return (mkArtifact n t u2))
  /\ select_artifact n
       [mkArtifact n "2023-10-01T00:00:00Z" "newer"; mkArtifact n "2023-9-30T00:00:00Z" "older"]
     = Return (mkArtifact n "2023-9-30T00:00:00Z" "older").
Proof.
  cbv zeta. split; [reflexivity|].
  split; [apply sorted_perm|].
  split; [apply (sorted_ascending created_at)|].
  split; [intros k; apply sorted_stable|].
  split; [intros a; apply select_artifact_Return|].
  split.
  - intros t u1 u2. unfold select_artifact, name_matches. cbn.
    rewrite String.eqb_refl. cbn. now rewrite str_lt_irrefl.
  - unfold select_artifact, name_matches. cbn. rewrite String.eqb_refl. reflexivity.
Qed.

Lemma selection_by_created_at_string_witness :
  exists p1 p2,
    [Demo.db2; Demo.other; Demo.db2; Demo.db1] = (p1 ++ Demo.db2 :: p2)%list
    /\ (forall b, b ∈ p2 -> name b = "db" ->
                  str_lt (created_at b) (created_at Demo.db2) = true).
Proof.
  destruct (selection_by_created_at_string "db" [Demo.db2; Demo.other; Demo.db2; Demo.db1])
    as (_ & _ & _ & _ & H & _).
  destruct (H Demo.db2 eq_refl) as (p1 & p2 & Hl & _ & _ & H2).
  exists p1, p2. split; [exact Hl | exact H2].
Defined.

(** ** The flag *)

Lemma after_fetch_retries (E : Env) (key : bytes) (m : Machine) :
  _artifact_downloaded (self m) = false ->
  exists rest,
    log (after E (Fetch key) m) = (log m ++ EvGet (listing_request (self m)) :: rest)%list.
Proof.
  intros Hd. cbn. rewrite fetch_unfold.
  destruct (_fetch_artifact E m) as [r m'] eqn:H.
  apply fetch_artifact_path in H.
  destruct (fetch_path_log E _ _ _ H Hd) as [rest Hl].
  destruct r as [[]|e]; cbn; [|eauto].
  unfold super_fetch. destruct (base_initialised (self m')); cbn; [|eauto].
  rewrite Hl, <- app_assoc. cbn. eauto.
Qed.

Lemma fetch_raises (E : Env) (key : bytes) (m : Machine) (e : exn) (m' : Machine) :
  _artifact_downloaded (self m) = false ->
  fetch E key m = (Raise e, m') ->
  _fetch_artifact E m = (Raise e, m').
Proof.
  intros Hd. rewrite fetch_unfold.
  destruct (_fetch_artifact E m) as [r m''] eqn:H.
  destruct r as [[]|e']; [|now intros [= -> ->]].
  apply fetch_artifact_path, fetch_path_self in H.
  destruct H as [[H _]|[_ H]]; [congruence|].
  unfold super_fetch. rewrite H. cbn. discriminate.
Qed.

(** C4. The flag is unset in a new object; no call unsets it; a
    [_fetch_artifact] or a [fetch] that raises, wherever the failure
    occurred, leaves the object as it was, with the flag unset, so that the
    next [fetch] starts again with the listing request; and a call that finds
    the flag unset and leaves it set is a [fetch] whose listing, selection,
    download and extraction all succeeded, the assignment of the flag being
    the last step of [_fetch_artifact]. *)
Theorem downloaded_flag_lifecycle (E : Env) :
  (forall environ o r n p, _artifact_downloaded (__init__ environ o r n p) = false)
  /\ (forall cs m, _artifact_downloaded (self m) = true ->
                   _artifact_downloaded (self (run E cs m)) = true)
  /\ (forall m e m', _fetch_artifact E m = (Raise e, m') ->
                     self m' = self m /\ _artifact_downloaded (self m') = false)
  /\ (forall key m e m',
         _artifact_downloaded (self m) = false ->
         fetch E key m = (Raise e, m') ->
         self m' = self m
         /\ _artifact_downloaded (self m') = false
         /\ forall key', exists rest,
              log (after E (Fetch key') m')
              = (log m' ++ EvGet (listing_request (self m')) :: rest)%list)
  /\ (forall c m,
         _artifact_downloaded (self m) = false ->
         _artifact_downloaded (self (after E c m)) = true ->
         exists key artifacts a req,
           c = Fetch key
           /\ listing_outcome E m = Return artifacts
           /\ select_artifact (artifact_name (self m)) artifacts = Return a
           /\ download_outcome E m a = Return req
           /\ fst (unpack_outcome E m a req) = None
           /\ _fetch_artifact E m
              = (Return tt,
                 set_self (set_artifact_downloaded true (super_init (path (self m)) (self m)))
                          (closed E m (unpacked E m a req)))).
Proof.
  split; [reflexivity|].
  split; [intros cs m; apply run_downloaded|].
  assert (Hraise : forall m e m', _fetch_artifact E m = (Raise e, m') ->
                     self m' = self m /\ _artifact_downloaded (self m') = false).
  { intros m e m' H. apply fetch_artifact_path, fetch_path_self in H.
    destruct H as [Hs Hd]. split; [exact Hs | now rewrite Hs]. }
  split; [exact Hraise|].
  split.
  - intros key m e m' Hd H. apply fetch_raises in H; [|exact Hd].
    destruct (Hraise _ _ _ H) as [Hs Hd']. repeat split; try assumption.
    intros key'. now apply after_fetch_retries.
  - intros c m Hd Hd'.
    destruct c as [key|k v|k v|k v]; cbn in Hd'; try congruence.
    rewrite fetch_unfold in Hd'.
    destruct (_fetch_artifact E m) as [r m'] eqn:H.
    pose proof (fetch_artifact_path E _ _ _ H) as P.
    destruct r as [[]|e].
    + rewrite super_fetch_self in Hd'.
      inversion P; subst; [congruence|].
      exists key, artifacts, a, req. repeat split; assumption.
    + cbn in Hd'. apply fetch_path_self in P. destruct P as [Hs _].
      rewrite Hs in Hd'. congruence.
Qed.

Lemma downloaded_flag_lifecycle_witness :
  let m' := after Demo.flaky_env (Fetch Demo.key) Demo.new_machine in
  _artifact_downloaded (self m') = false
  /\ (exists rest,
         log (after Demo.flaky_env (Fetch Demo.key) m')
         = (log m' ++ EvGet (listing_request (self m')) :: rest)%list)
  /\ _artifact_downloaded (self (after Demo.flaky_env (Fetch Demo.key) m')) = true.
Proof.
  intros m'.
  destruct (downloaded_flag_lifecycle Demo.flaky_env) as (_ & _ & _ & H & _).
  destruct (H Demo.key Demo.new_machine
              (Exn RuntimeError msg_connect_listing (Some Demo.connection_error)) m')
    as (_ & Hd & Hretry).
  - reflexivity.
  - reflexivity.
  - split; [exact Hd|]. split; [apply Hretry | reflexivity].
Defined.

(** ** Failures *)

(** C5, evaluated on the code: with a listing in which no descriptor carries
    the configured name, [_fetch_artifact] lets the [IndexError] of the empty
    selection through, right after the listing request. *)
Theorem no_matching_artifact_raises_IndexError (E : Env) (m : Machine)
    (artifacts : list Artifact) :
  _artifact_downloaded (self m) = false ->
  listing_outcome E m = Return artifacts ->
  (forall b, b ∈ artifacts -> name b <> artifact_name (self m)) ->
  _fetch_artifact E m
  = (Raise (Exn IndexError "list index out of range" None), listed m).
Proof.
  intros Hd HL Hno. eapply fetch_artifact_nothing_selected; eauto.
  now apply select_artifact_no_match.
Qed.

Lemma no_matching_artifact_raises_IndexError_witness :
  _fetch_artifact
    (Demo.env (Return (Demo.listing_response [Demo.other]))
              (Return (Demo.archive_response Demo.archive)))
    Demo.new_machine
  = (Raise (Exn IndexError "list index out of range" None), listed Demo.new_machine).
Proof.
  apply (no_matching_artifact_raises_IndexError _ _ [Demo.other]).
  - reflexivity.
  - reflexivity.
  - intros b Hb. apply list_elem_of_singleton in Hb. subst b. discriminate.
Defined.

Lemma translate_ConnectionError (msg : string) (e : exn) :
  exn_class e = ConnectionError -> translate msg e = Exn RuntimeError msg (Some e).
Proof. intros H. unfold translate, isinstance. now rewrite H. Qed.

Lemma translate_HTTPError (msg : string) (e : exn) :
  exn_class e = HTTPError -> translate msg e = Exn RuntimeError msg_http (Some e).
Proof. intros H. unfold translate, isinstance. now rewrite H. Qed.

(** C6 as stated fails: an unreachable service and a 404 answer make
    [_fetch_artifact] raise exceptions of one and the same class. *)
Lemma distinct_error_types_counterexample :
  let unreachable :=
    Demo.env (Raise Demo.connection_error) (Return (Demo.archive_response Demo.archive)) in
  let refusing :=
    Demo.env (Return Demo.error_response) (Return (Demo.archive_response Demo.archive)) in
  ~ exists e1 e2,
      fst (_fetch_artifact unreachable Demo.new_machine) = Raise e1
      /\ fst (_fetch_artifact refusing Demo.new_machine) = Raise e2
      /\ exn_class e1 <> exn_class e2.
Proof.
  intros unreachable refusing (e1 & e2 & H1 & H2 & Hne).
  vm_compute in H1, H2. injection H1 as <-. injection H2 as <-.
  now apply Hne.
Qed.

(** C6, amended. For the listing request and for the download request alike,
    a [ConnectionError] of [requests.get] and an [HTTPError] of
    [raise_for_status] both end the fetch with a [RuntimeError] that carries
    the original exception as its cause. The two cases are told apart by the
    message only: "Could not connect to GitHub ..." for the first, and for
    the second one message that names the existence of the repository and
    the validity of the token. *)
Theorem request_errors_become_RuntimeError (E : Env) (m : Machine) :
  _artifact_downloaded (self m) = false ->
  (forall e,
      requests_get E (log m) (listing_request (self m)) = Raise e ->
      exn_class e = ConnectionError ->
      fst (_fetch_artifact E m) = Raise (Exn RuntimeError msg_connect_listing (Some e)))
  /\ (forall res e,
         requests_get E (log m) (listing_request (self m)) = Return res ->
         raise_for_status res = Some e ->
         exn_class e = HTTPError ->
         fst (_fetch_artifact E m) = Raise (Exn RuntimeError msg_http (Some e)))
  /\ (forall artifacts a e,
         listing_outcome E m = Return artifacts ->
         select_artifact (artifact_name (self m)) artifacts = Return a ->
         requests_get E (log (listed m) ++ [EvTempCreate (mkstemp E (fs m))])
                      (download_request (self m) a) = Raise e ->
         exn_class e = ConnectionError ->
         fst (_fetch_artifact E m) = Raise (Exn RuntimeError msg_connect_download (Some e)))
  /\ (forall artifacts a req e,
         listing_outcome E m = Return artifacts ->
         select_artifact (artifact_name (self m)) artifacts = Return a ->
         requests_get E (log (listed m) ++ [EvTempCreate (mkstemp E (fs m))])
                      (download_request (self m) a) = Return req ->
         raise_for_status req = Some e ->
         exn_class e = HTTPError ->
         fst (_fetch_artifact E m) = Raise (Exn RuntimeError msg_http (Some e)))
  /\ str_contains "Could not connect to GitHub" msg_connect_listing = true
  /\ str_contains "Could not connect to GitHub" msg_connect_download = true
  /\ str_contains "Check that the repository exists" msg_http = true
  /\ str_contains "provided a valid token" msg_http = true
  /\ msg_connect_listing <> msg_http
  /\ msg_connect_download <> msg_http.
Proof.
  intros Hd. repeat split; try reflexivity; try discriminate.
  - intros e Hget Hc.
    rewrite (fetch_artifact_listing_failed E m e Hd).
    + cbn. now rewrite translate_ConnectionError.
    + unfold listing_outcome. now rewrite Hget.
  - intros res e Hget Hs Hc.
    rewrite (fetch_artifact_listing_failed E m e Hd).
    + cbn. now rewrite translate_HTTPError.
    + unfold listing_outcome. now rewrite Hget, Hs.
  - intros artifacts a e HL HS Hget Hc.
    rewrite (fetch_artifact_download_failed E m artifacts a e Hd HL HS).
    + cbn. now rewrite translate_ConnectionError.
    + unfold download_outcome. now rewrite Hget.
  - intros artifacts a req e HL HS Hget Hs Hc.
    rewrite (fetch_artifact_download_failed E m artifacts a e Hd HL HS).
    + cbn. now rewrite translate_HTTPError.
    + unfold download_outcome. now rewrite Hget, Hs.
Qed.

Lemma request_errors_become_RuntimeError_witness :
  fst (_fetch_artifact
         (Demo.env (Raise Demo.connection_error) (Return (Demo.archive_response Demo.archive)))
         Demo.new_machine)
  = Raise (Exn RuntimeError msg_connect_listing (Some Demo.connection_error))
  /\ fst (_fetch_artifact
            (Demo.env (Return (Demo.listing_response Demo.listing)) (Return Demo.error_response))
            Demo.new_machine)
     = Raise (Exn RuntimeError msg_http (Some Demo.http_error)).
Proof.
  split.
  - refine (proj1 (request_errors_become_RuntimeError _ Demo.new_machine _) _ _ _);
      reflexivity.
  - refine (proj1 (proj2 (proj2 (proj2
              (request_errors_become_RuntimeError _ Demo.new_machine _))))
              Demo.listing Demo.db2 Demo.error_response _ _ _ _ _ _);
      reflexivity.
Defined.

(** ** The filesystem after a failure *)

Lemma append_cons (c : ascii) (s t : string) : String c s ++ t = String c (s ++ t).
Proof. reflexivity. Qed.

Lemma append_nil_r (s : string) : s ++ "" = s.
Proof. induction s as [|c s IH]; [reflexivity | now rewrite append_cons, IH]. Qed.

Lemma append_assoc (a b c : string) : (a ++ b) ++ c = a ++ (b ++ c).
Proof. induction a as [|x a IH]; [reflexivity | now rewrite !append_cons, IH]. Qed.

Lemma ancestors_from_whole (acc rest : string) : (acc ++ rest) ∈ ancestors_from acc rest.
Proof.
  revert acc. induction rest as [|c rest IH]; intros acc; cbn [ancestors_from].
  - rewrite append_nil_r. left.
  - specialize (IH (acc ++ String c "")). rewrite append_assoc in IH.
    change (String c "" ++ rest) with (String c rest) in IH.
    destruct (_ && _); [right|]; exact IH.
Qed.

Lemma mkdir_step_keeps (l : list string) (f : gmap string node) (d : string) :
  is_Some (f !! d) ->
  is_Some (foldl (fun f d => match f !! d with Some _ => f | None => <[d := Dir]> f end) f l !! d).
Proof.
  revert f. induction l as [|x l IH]; intros f H; cbn; [exact H|].
  apply IH. destruct (f !! x) eqn:Hx; [exact H|].
  destruct (decide (x = d)) as [->|Hne].
  - rewrite lookup_insert_eq. eauto.
  - now rewrite lookup_insert_ne.
Qed.

Lemma mkdir_step_creates (l : list string) (f : gmap string node) (d : string) :
  d ∈ l ->
  is_Some (foldl (fun f d => match f !! d with Some _ => f | None => <[d := Dir]> f end) f l !! d).
Proof.
  revert f. induction l as [|x l IH]; intros f H; [now apply elem_of_nil in H|].
  apply elem_of_cons in H. destruct H as [->|H]; cbn; [|now apply IH].
  apply mkdir_step_keeps. destruct (f !! x) eqn:Hx; [rewrite Hx; eauto|].
  rewrite lookup_insert_eq. eauto.
Qed.

(** After [mkdir_p(p)] the path [p] exists. *)
Lemma mkdir_p_exists (p : string) (f : gmap string node) : is_Some (mkdir_p p f !! p).
Proof. apply mkdir_step_creates. exact (ancestors_from_whole "" p). Qed.

(** C7 as stated fails at the extraction step: the archive is downloaded,
    [mkdir_p] creates the directory, and [unpack_archive] then raises, on a
    damaged archive after having written a first file, on a body that is no
    archive before writing any. The fetch fails and the directory, absent
    before, is there. *)
Lemma failed_extraction_counterexample :
  let damaged :=
    _fetch_artifact
      (Demo.env (Return (Demo.listing_response Demo.listing))
                (Return (Demo.archive_response Demo.damaged_archive)))
      Demo.new_machine in
  let rejected :=
    _fetch_artifact
      (Demo.env (Return (Demo.listing_response Demo.listing))
                (Return (Demo.archive_response Demo.not_an_archive)))
      Demo.new_machine in
  fs Demo.new_machine !! path (self Demo.new_machine) = None
  /\ fst damaged = Raise (Exn OSError "Bad CRC-32 for file 'second'" None)
  /\ fs (snd damaged) !! path (self Demo.new_machine) = Some Dir
  /\ fs (snd damaged) !! ".hypothesis/ci/first" = Some (File [Byte.x03; Byte.x2a])
  /\ fst rejected = Raise (Exn ReadError "/tmp/tmpk3v9x2 is not a zip file" None)
  /\ fs (snd rejected) !! path (self Demo.new_machine) = Some Dir
  /\ fs (snd damaged) <> fs Demo.new_machine
  /\ fs (snd rejected) <> fs Demo.new_machine.
Proof.
  cbv zeta. repeat split; try (vm_compute; reflexivity).
  - intros H. apply (f_equal (fun f => f !! ".hypothesis/ci")) in H.
    vm_compute in H. discriminate.
  - intros H. apply (f_equal (fun f => f !! ".hypothesis/ci")) in H.
    vm_compute in H. discriminate.
Qed.

(** C7, amended. With the temporary file name unused before, a fetch that
    fails at the listing request (connection failure or error response), at
    the selection, or at the download request (connection failure or error
    response) leaves the filesystem, and so the local directory, exactly as
    it was. When the extraction fails, [mkdir_p] has already run, so the
    directory exists when [unpack_archive] starts, and the filesystem left
    behind is what [unpack_archive] left, less the temporary file. *)
Theorem failed_fetch_filesystem (E : Env) (m : Machine) :
  _artifact_downloaded (self m) = false ->
  fs m !! mkstemp E (fs m) = None ->
  (forall e, listing_outcome E m = Raise e ->
             exists e', _fetch_artifact E m = (Raise e', listed m) /\ fs (listed m) = fs m)
  /\ (forall artifacts e,
         listing_outcome E m = Return artifacts ->
         select_artifact (artifact_name (self m)) artifacts = Raise e ->
         _fetch_artifact E m = (Raise e, listed m) /\ fs (listed m) = fs m)
  /\ (forall artifacts a e,
         listing_outcome E m = Return artifacts ->
         select_artifact (artifact_name (self m)) artifacts = Return a ->
         download_outcome E m a = Raise e ->
         exists e' m', _fetch_artifact E m = (Raise e', m') /\ fs m' = fs m)
  /\ (forall artifacts a req e,
         listing_outcome E m = Return artifacts ->
         select_artifact (artifact_name (self m)) artifacts = Return a ->
         download_outcome E m a = Return req ->
         fst (unpack_outcome E m a req) = Some e ->
         exists m', _fetch_artifact E m = (Raise e, m')
           /\ is_Some (fs (buffered E m a req) !! path (self m))
           /\ fs m' = base.delete (mkstemp E (fs m)) (snd (unpack_outcome E m a req))).
Proof.
  intros Hd Hfresh. split; [|split; [|split]].
  - intros e HL. eexists. split; [apply (fetch_artifact_listing_failed E m e Hd HL) | reflexivity].
  - intros artifacts e HL HS.
    split; [now apply (fetch_artifact_nothing_selected E m artifacts) | reflexivity].
  - intros artifacts a e HL HS HD. do 2 eexists.
    split; [eapply fetch_artifact_download_failed; eauto|].
    cbn. now apply delete_insert_id.
  - intros artifacts a req e HL HS HD HU. eexists.
    split; [eapply fetch_artifact_unpack_failed; eauto|].
    split; [apply mkdir_p_exists | reflexivity].
Qed.

Lemma failed_fetch_filesystem_witness :
  (exists e' m',
      _fetch_artifact
        (Demo.env (Return (Demo.listing_response Demo.listing)) (Return Demo.error_response))
        Demo.new_machine = (Raise e', m')
      /\ fs m' = fs Demo.new_machine).
Proof.
  refine (proj1 (proj2 (proj2
            (failed_fetch_filesystem
               (Demo.env (Return (Demo.listing_response Demo.listing))
                         (Return Demo.error_response))
               Demo.new_machine _ _)))
            Demo.listing Demo.db2 Demo.http_error _ _ _);
    reflexivity.
Defined.

(** ** Request headers *)

(** C8, evaluated on the code: when [GITHUB_TOKEN] is not in the environment
    the object is built with [token = None], and both requests still carry an
    [Authorization] header, with the value ["Bearer None"]; the listing
    request with that header is the first thing a fetch sends. *)
Theorem authorization_header_without_token
    (environ : gmap string string) (o r n p : string) (a : Artifact) :
  environ !! "GITHUB_TOKEN" = None ->
  let d := __init__ environ o r n p in
  token d = None
  /\ headers (listing_request d) !! "Authorization" = Some "Bearer None"
  /\ headers (download_request d a) !! "Authorization" = Some "Bearer None"
  /\ forall E f, exists rest,
       log (snd (_fetch_artifact E (mkMachine d f []))) = EvGet (listing_request d) :: rest.
Proof.
  intros Henv d.
  assert (Ht : token d = None) by exact Henv.
  split; [exact Ht|].
  split; [unfold listing_request; rewrite Ht; reflexivity|].
  split; [unfold download_request; rewrite Ht; reflexivity|].
  intros E f.
  destruct (_fetch_artifact E (mkMachine d f [])) as [res m'] eqn:H.
  apply fetch_artifact_path in H.
  destruct (fetch_path_log E _ _ _ H eq_refl) as [rest Hl].
  exists rest. exact Hl.
Qed.

Lemma authorization_header_without_token_witness :
  headers (listing_request (self Demo.new_machine_no_token)) !! "Authorization"
  = Some "Bearer None"
  /\ headers (download_request (self Demo.new_machine_no_token) Demo.db2) !! "Authorization"
     = Some "Bearer None".
Proof.
  destruct (authorization_header_without_token ∅ "octo" "proj" "db" ".hypothesis/ci" Demo.db2)
    as (_ & H1 & H2 & _).
  - reflexivity.
  - split; [exact H1 | exact H2].
Defined.

(** C9, evaluated on the code: the download request goes to the selected
    descriptor's [archive_download_url] with [stream=True] and
    [allow_redirects=True], and with the [Accept] and [Authorization] values
    of the listing request; its [X-GitHub-Api-Version] value is
    ["2022-11-28"] where the listing request sends ["2022-11-28 "], with a
    space at the end, so the two header dicts differ. *)
Theorem download_headers_differ (d : GitHubArtifactDatabase) (a : Artifact) :
  url (download_request d a) = archive_download_url a
  /\ stream (download_request d a) = true
  /\ allow_redirects (download_request d a) = true
  /\ headers (download_request d a) !! "Accept" = headers (listing_request d) !! "Accept"
  /\ headers (download_request d a) !! "Authorization"
     = headers (listing_request d) !! "Authorization"
  /\ headers (listing_request d) !! "X-GitHub-Api-Version" = Some "2022-11-28 "
  /\ headers (download_request d a) !! "X-GitHub-Api-Version" = Some "2022-11-28"
  /\ headers (download_request d a) <> headers (listing_request d).
Proof.
  assert (Hl : headers (listing_request d) !! "X-GitHub-Api-Version" = Some "2022-11-28 ")
    by reflexivity.
  assert (Hd : headers (download_request d a) !! "X-GitHub-Api-Version" = Some "2022-11-28")
    by reflexivity.
  repeat split; try reflexivity; try assumption.
  intros H. rewrite H, Hl in Hd. discriminate.
Qed.


(** * Further properties of the module *)

(** ** Configuration *)

Lemma after_configuration (E : Env) (c : call) (m : Machine) :
  owner (self (after E c m)) = owner (self m)
  /\ repo (self (after E c m)) = repo (self m)
  /\ artifact_name (self (after E c m)) = artifact_name (self m)
  /\ path (self (after E c m)) = path (self m)
  /\ token (self (after E c m)) = token (self m).
Proof.
  destruct (after_self E c m) as [->|(_ & _ & ->)]; repeat split; reflexivity.
Qed.

(** X1. No sequence of calls changes [owner], [repo], [artifact_name],
    [path] or [token]: the only attributes a method assigns are the flag and
    those of the base class. The [repr] of the object, which shows the first
    three, is therefore the same before and after any calls. *)
Theorem configuration_stable (E : Env) (cs : list call) (m : Machine) :
  owner (self (run E cs m)) = owner (self m)
  /\ repo (self (run E cs m)) = repo (self m)
  /\ artifact_name (self (run E cs m)) = artifact_name (self m)
  /\ path (self (run E cs m)) = path (self m)
  /\ token (self (run E cs m)) = token (self m)
  /\ __repr__ (self (run E cs m)) = __repr__ (self m).
Proof.
  revert m. induction cs as [|c cs IH]; intros m; [repeat split; reflexivity|].
  change (run E (c :: cs) m) with (run E cs (after E c m)).
  destruct (IH (after E c m)) as (Ho & Hr & Hn & Hp & Ht & _).
  destruct (after_configuration E c m) as (Ho' & Hr' & Hn' & Hp' & Ht').
  assert (Ho2 : owner (self (run E cs (after E c m))) = owner (self m)) by congruence.
  assert (Hr2 : repo (self (run E cs (after E c m))) = repo (self m)) by congruence.
  assert (Hn2 : artifact_name (self (run E cs (after E c m))) = artifact_name (self m))
    by congruence.
  repeat split; try congruence.
  unfold __repr__. now rewrite Ho2, Hr2, Hn2.
Qed.

(** ** The temporary file *)

(** X2. With a temporary file name that is unused when a call starts, no
    call, whether it returns or raises, leaves the temporary file behind. *)
Theorem temporary_file_removed (E : Env) (c : call) (m : Machine) :
  fs m !! mkstemp E (fs m) = None ->
  fs (after E c m) !! mkstemp E (fs m) = None.
Proof.
  intros Hfresh. destruct c as [key|k v|k v|k v]; cbn; try exact Hfresh.
  rewrite fetch_unfold.
  destruct (_fetch_artifact E m) as [r m'] eqn:H.
  apply fetch_artifact_path in H.
  assert (Hm' : fs m' !! mkstemp E (fs m) = None).
  { inversion H; subst; cbn; try exact Hfresh; apply lookup_delete_eq. }
  destruct r as [[]|e]; cbn; [|exact Hm'].
  unfold super_fetch. destruct (base_initialised (self m')); exact Hm'.
Qed.

Lemma temporary_file_removed_witness :
  fs (after
        (Demo.env (Return (Demo.listing_response Demo.listing))
                  (Return (Demo.archive_response Demo.damaged_archive)))
        (Fetch Demo.key) Demo.new_machine) !! Demo.tmp = None.
Proof.
  apply (temporary_file_removed
           (Demo.env (Return (Demo.listing_response Demo.listing))
                     (Return (Demo.archive_response Demo.damaged_archive)))
           (Fetch Demo.key) Demo.new_machine).
  reflexivity.
Defined.

(** ** Exceptions the [except] clauses do not name *)

Lemma translate_other (msg : string) (e : exn) :
  exn_class e <> ConnectionError -> exn_class e <> HTTPError -> translate msg e = e.
Proof.
  intros H1 H2. unfold translate, isinstance.
  rewrite !bool_decide_eq_false_2 by assumption. reflexivity.
Qed.

(** X3. An exception raised inside either [try] block that is neither a
    [ConnectionError] nor an [HTTPError] leaves [_fetch_artifact] as it is,
    without a wrapping [RuntimeError]. In particular a listing answer whose
    JSON object has no ["artifacts"] key ends the fetch with
    [KeyError('artifacts')], after the listing request and before any file is
    created. *)
Theorem other_exceptions_propagate (E : Env) (m : Machine) :
  _artifact_downloaded (self m) = false ->
  (forall e,
      listing_outcome E m = Raise e ->
      exn_class e <> ConnectionError -> exn_class e <> HTTPError ->
      _fetch_artifact E m = (Raise e, listed m))
  /\ (forall res body,
         requests_get E (log m) (listing_request (self m)) = Return res ->
         raise_for_status res = None ->
         json res = Return body ->
         body !! "artifacts" = None ->
         _fetch_artifact E m = (Raise (Exn KeyError "artifacts" None), listed m))
  /\ (forall artifacts a e,
         listing_outcome E m = Return artifacts ->
         select_artifact (artifact_name (self m)) artifacts = Return a ->
         download_outcome E m a = Raise e ->
         exn_class e <> ConnectionError -> exn_class e <> HTTPError ->
         _fetch_artifact E m = (Raise e, closed E m (requested E m a))).
Proof.
  intros Hd. split; [|split].
  - intros e HL H1 H2.
    rewrite (fetch_artifact_listing_failed E m e Hd HL). now rewrite translate_other.
  - intros res body Hget Hs Hj Hk.
    rewrite (fetch_artifact_listing_failed E m (Exn KeyError "artifacts" None) Hd).
    + reflexivity.
    + unfold listing_outcome, dict_getitem. now rewrite Hget, Hs, Hj, Hk.
  - intros artifacts a e HL HS HD H1 H2.
    rewrite (fetch_artifact_download_failed E m artifacts a e Hd HL HS HD).
    now rewrite translate_other.
Qed.

Lemma other_exceptions_propagate_witness :
  _fetch_artifact
    (Demo.env (Return (mkResponse None (Return ∅) []))
              (Return (Demo.archive_response Demo.archive)))
    Demo.new_machine
  = (Raise (Exn KeyError "artifacts" None), listed Demo.new_machine).
Proof.
  refine (proj1 (proj2 (other_exceptions_propagate _ Demo.new_machine _))
            (mkResponse None (Return ∅) []) ∅ _ _ _ _);
    reflexivity.
Defined.

(** ** Requests per call *)

Lemma select_artifact_max (n : string) (l : list Artifact) (a : Artifact) :
  select_artifact n l = Return a ->
  a ∈ l /\ name a = n
  /\ forall b, b ∈ l -> name b = n -> str_le (created_at b) (created_at a) = true.
Proof.
  intros HS.
  destruct (select_artifact_Return _ _ _ HS) as (p1 & p2 & -> & Hn & H1 & H2).
  split; [apply elem_of_app; right; left|]. split; [exact Hn|].
  intros b Hb Hbn. apply elem_of_app in Hb. destruct Hb as [Hb|Hb]; [now apply H1|].
  apply elem_of_cons in Hb. destruct Hb as [->|Hb]; [apply str_le_refl|].
  apply str_lt_le. now apply H2.
Qed.

(** X4. A call sends at most two requests: none (the mutators, and [fetch]
    once the flag is set), the listing request alone, or the listing request
    followed by one download request for a descriptor of the listing that
    carries the configured name. There is one listing request per fetch and
    no request for further pages. *)
Theorem requests_per_call (E : Env) (c : call) (m : Machine) :
  exists reqs,
    List.filter is_network (log (after E c m))
    = (List.filter is_network (log m) ++ reqs)%list
    /\ (reqs = []
        \/ reqs = [EvGet (listing_request (self m))]
        \/ exists artifacts a,
             listing_outcome E m = Return artifacts
             /\ a ∈ artifacts
             /\ name a = artifact_name (self m)
             /\ reqs = [EvGet (listing_request (self m));
                        EvGet (download_request (self m) a)]).
Proof.
  assert (Hnil : forall l : list Event, l = (l ++ [])%list)
    by (intros l; now rewrite app_nil_r).
  destruct c as [key|k v|k v|k v]; cbn;
    try (exists []; split; [apply Hnil | now left]).
  rewrite fetch_unfold.
  destruct (_fetch_artifact E m) as [r m'] eqn:H.
  pose proof (fetch_artifact_path E _ _ _ H) as P.
  assert (Hsf : List.filter is_network (log (snd (super_fetch E key m')))
                = List.filter is_network (log m')).
  { unfold super_fetch. destruct (base_initialised (self m')); cbn; [|reflexivity].
    rewrite List.filter_app. cbn. apply app_nil_r. }
  assert (Hm' : exists reqs,
             List.filter is_network (log m')
             = (List.filter is_network (log m) ++ reqs)%list
             /\ (reqs = []
                 \/ reqs = [EvGet (listing_request (self m))]
                 \/ exists artifacts a,
                      listing_outcome E m = Return artifacts
                      /\ a ∈ artifacts
                      /\ name a = artifact_name (self m)
                      /\ reqs = [EvGet (listing_request (self m));
                                 EvGet (download_request (self m) a)])).
  { inversion P; subst.
    - exists []. split; [apply Hnil | now left].
    - exists [EvGet (listing_request (self m))]. split; [|now right; left].
      cbn. rewrite List.filter_app. reflexivity.
    - exists [EvGet (listing_request (self m))]. split; [|now right; left].
      cbn. rewrite List.filter_app. reflexivity.
    - destruct (fetch_path_selected E m _ _ artifacts a P) as [_ Hn]; try assumption.
      destruct (select_artifact_max _ _ _ H2) as (Hin & Hname & _).
      eexists. split; [exact Hn|]. right; right. exists artifacts, a. auto.
    - destruct (fetch_path_selected E m _ _ artifacts a P) as [_ Hn]; try assumption.
      destruct (select_artifact_max _ _ _ H2) as (Hin & Hname & _).
      eexists. split; [exact Hn|]. right; right. exists artifacts, a. auto.
    - destruct (fetch_path_selected E m _ _ artifacts a P) as [_ Hn]; try assumption.
      destruct (select_artifact_max _ _ _ H2) as (Hin & Hname & _).
      eexists. split; [exact Hn|]. right; right. exists artifacts, a. auto. }
  destruct r as [[]|e]; [rewrite Hsf|]; exact Hm'.
Qed.

(** ** The first read and the reads after it *)

Lemma mkdir_step_preserves (l : list string) (f : gmap string node) (d : string) (x : node) :
  f !! d = Some x ->
  foldl (fun f d => match f !! d with Some _ => f | None => <[d := Dir]> f end) f l !! d
  = Some x.
Proof.
  revert f. induction l as [|y l IH]; intros f H; cbn; [exact H|].
  apply IH. destruct (f !! y) eqn:Hy; [exact H|].
  rewrite lookup_insert_ne; [exact H|]. intros ->. congruence.
Qed.

(** X5. In a fetch on an object whose flag is unset, once listing, selection
    and download have succeeded, [unpack_archive] is run on the temporary
    file as it is on disk at that point: it holds what the buffered file
    object has written through of the response body, which need not be the
    whole body, since nothing flushes the file. When [unpack_archive] accepts
    that file, [fetch] returns what the base class reads for the key below
    [self.path] in the filesystem [unpack_archive] left, the temporary file
    removed, and leaves the flag set; when it raises, [fetch] raises the same
    exception. *)
Theorem first_fetch_reads_unpacked (E : Env) (m : Machine) (key : bytes)
    (artifacts : list Artifact) (a : Artifact) (req : Response) :
  _artifact_downloaded (self m) = false ->
  listing_outcome E m = Return artifacts ->
  select_artifact (artifact_name (self m)) artifacts = Return a ->
  download_outcome E m a = Return req ->
  fs (buffered E m a req) !! mkstemp E (fs m)
  = Some (File (written_through E (content req)))
  /\ (fst (unpack_outcome E m a req) = None ->
      fst (fetch E key m)
      = Return (DirectoryBasedExampleDatabase_fetch E
                  (base.delete (mkstemp E (fs m)) (snd (unpack_outcome E m a req)))
                  (path (self m)) key)
      /\ _artifact_downloaded (self (snd (fetch E key m))) = true
      /\ fs (snd (fetch E key m))
         = base.delete (mkstemp E (fs m)) (snd (unpack_outcome E m a req)))
  /\ (forall e,
        fst (unpack_outcome E m a req) = Some e ->
        fetch E key m = (Raise e, closed E m (unpacked E m a req))).
Proof.
  intros Hd HL HS HD. split; [|split].
  - unfold buffered, mkdir_p. cbn [fs emit set_fs].
    apply mkdir_step_preserves. apply lookup_insert_eq.
  - intros HU.
    rewrite fetch_unfold, (fetch_artifact_success E m artifacts a req Hd HL HS HD HU).
    repeat split; reflexivity.
  - intros e HU.
    rewrite fetch_unfold, (fetch_artifact_unpack_failed E m artifacts a req e Hd HL HS HD HU).
    reflexivity.
Qed.

Lemma first_fetch_reads_unpacked_witness :
  (fst (fetch Demo.good_env Demo.key Demo.new_machine) = Return [[Byte.x2a]]
   /\ _artifact_downloaded (self (snd (fetch Demo.good_env Demo.key Demo.new_machine))) = true)
  /\ fst (fetch Demo.large_buffer_env Demo.key Demo.new_machine)
     = Raise (Exn ReadError "/tmp/tmpk3v9x2 is not a zip file" None).
Proof.
  split.
  - pose proof (first_fetch_reads_unpacked Demo.good_env Demo.new_machine Demo.key
                  Demo.listing Demo.db2 (Demo.archive_response Demo.archive)
                  eq_refl eq_refl eq_refl eq_refl) as (_ & H & _).
    destruct (H eq_refl) as (H1 & H2 & _). split; [exact H1 | exact H2].
  - pose proof (first_fetch_reads_unpacked Demo.large_buffer_env Demo.new_machine Demo.key
                  Demo.listing Demo.db2 (Demo.archive_response Demo.archive)
                  eq_refl eq_refl eq_refl eq_refl) as (_ & _ & H).
    rewrite (H (Exn ReadError "/tmp/tmpk3v9x2 is not a zip file" None) eq_refl).
    reflexivity.
Defined.

(** X6. Whatever the state of the object, when [fetch(key)] returns, calling
    it again right away returns the same values, sends no request and only
    reads the store again. *)
Theorem fetch_again (E : Env) (m : Machine) (key : bytes) (vs : list bytes) (m1 : Machine) :
  fetch E key m = (Return vs, m1) ->
  fetch E key m1 = (Return vs, emit (EvStoreRead (path (self m1)) key) m1).
Proof.
  rewrite fetch_unfold.
  destruct (_fetch_artifact E m) as [r m'] eqn:H.
  apply fetch_artifact_path in H.
  destruct r as [[]|e]; [|discriminate].
  unfold super_fetch at 1.
  destruct (base_initialised (self m')) eqn:Hb; [|discriminate].
  intros [= <- <-].
  assert (Hd : _artifact_downloaded (self m') = true).
  { apply fetch_path_self in H. destruct H as [[Hd ->]|[_ ->]]; [exact Hd | reflexivity]. }
  rewrite fetch_unfold, fetch_artifact_cached by exact Hd.
  unfold super_fetch. cbn. rewrite Hb. reflexivity.
Qed.

Lemma fetch_again_witness :
  let m1 := snd (fetch Demo.good_env Demo.key Demo.new_machine) in
  fetch Demo.good_env Demo.key m1
  = (Return [[Byte.x2a]], emit (EvStoreRead (path (self m1)) Demo.key) m1).
Proof.
  intros m1.
  apply (fetch_again Demo.good_env Demo.new_machine Demo.key [[Byte.x2a]] m1).
  reflexivity.
Defined.

(** ** Order of the I/O *)

(** X8. The I/O of a fetch, in order. When everything succeeds: listing
    request, creation of the temporary file, download request, write of the
    response body, [mkdir_p], [unpack_archive] of the temporary file into
    [self.path] as zip, removal of the temporary file. When the download
    request fails the temporary file is created and removed around it and
    nothing is written, no directory made and nothing unpacked. When the
    listing or the selection fails the listing request is all there is. *)
Theorem fetch_io_order (E : Env) (m : Machine) :
  _artifact_downloaded (self m) = false ->
  let f := mkstemp E (fs m) in
  (forall artifacts a req,
      listing_outcome E m = Return artifacts ->
      select_artifact (artifact_name (self m)) artifacts = Return a ->
      download_outcome E m a = Return req ->
      log (snd (_fetch_artifact E m))
      = (log m ++ [EvGet (listing_request (self m));
                   EvTempCreate f;
                   EvGet (download_request (self m) a);
                   EvWrite f (content req);
                   EvMkdir (path (self m));
                   EvUnpack f (path (self m)) "zip";
                   EvTempDelete f])%list)
  /\ (forall artifacts a e,
         listing_outcome E m = Return artifacts ->
         select_artifact (artifact_name (self m)) artifacts = Return a ->
         download_outcome E m a = Raise e ->
         log (snd (_fetch_artifact E m))
         = (log m ++ [EvGet (listing_request (self m));
                      EvTempCreate f;
                      EvGet (download_request (self m) a);
                      EvTempDelete f])%list)
  /\ (forall artifacts e,
         listing_outcome E m = Raise e
         \/ (listing_outcome E m = Return artifacts
             /\ select_artifact (artifact_name (self m)) artifacts = Raise e) ->
         log (snd (_fetch_artifact E m))
         = (log m ++ [EvGet (listing_request (self m))])%list).
Proof.
  intros Hd f. split; [|split].
  - intros artifacts a req HL HS HD.
    destruct (fst (unpack_outcome E m a req)) as [e|] eqn:HU.
    + rewrite (fetch_artifact_unpack_failed E m artifacts a req e Hd HL HS HD HU).
      cbn. rewrite <- !app_assoc. reflexivity.
    + rewrite (fetch_artifact_success E m artifacts a req Hd HL HS HD HU).
      cbn. rewrite <- !app_assoc. reflexivity.
  - intros artifacts a e HL HS HD.
    rewrite (fetch_artifact_download_failed E m artifacts a e Hd HL HS HD).
    cbn. rewrite <- !app_assoc. reflexivity.
  - intros artifacts e [HL|[HL HS]].
    + now rewrite (fetch_artifact_listing_failed E m e Hd HL).
    + now rewrite (fetch_artifact_nothing_selected E m artifacts e Hd HL HS).
Qed.

Lemma fetch_io_order_witness :
  log (snd (_fetch_artifact Demo.good_env Demo.new_machine))
  = [EvGet (listing_request (self Demo.new_machine));
     EvTempCreate Demo.tmp;
     EvGet (download_request (self Demo.new_machine) Demo.db2);
     EvWrite Demo.tmp Demo.archive;
     EvMkdir ".hypothesis/ci";
     EvUnpack Demo.tmp ".hypothesis/ci" "zip";
     EvTempDelete Demo.tmp].
Proof.
  refine (proj1 (fetch_io_order Demo.good_env Demo.new_machine _)
            Demo.listing Demo.db2 (Demo.archive_response Demo.archive) _ _ _);
    reflexivity.
Defined.

(** ** The order of the listing *)

Lemma str_le_antisym (a b : string) :
  str_le a b = true -> str_le b a = true -> a = b.
Proof.
  unfold str_le. rewrite !negb_true_iff. intros Hba Hab.
  now apply str_lt_connex.
Qed.

(** X9. When no two descriptors with the configured name share a
    [created_at] string, the selection does not depend on the order in which
    the listing arrives: two listings with the same descriptors in different
    orders give the same descriptor, or the same [IndexError]. *)
Theorem selection_order_independent (n : string) (l1 l2 : list Artifact) :
  Permutation l1 l2 ->
  (forall a b, a ∈ l1 -> b ∈ l1 -> name a = n -> name b = n ->
               created_at a = created_at b -> a = b) ->
  select_artifact n l1 = select_artifact n l2.
Proof.
  intros Hp Hdistinct.
  destruct (select_artifact n l1) as [a1|e1] eqn:H1.
  - destruct (select_artifact_max _ _ _ H1) as (Hin1 & Hn1 & Hmax1).
    destruct (select_artifact_matching n l2) as [a2 H2].
    { exists a1. split; [now rewrite <- Hp | exact Hn1]. }
    destruct (select_artifact_max _ _ _ H2) as (Hin2 & Hn2 & Hmax2).
    rewrite H2. f_equal. apply Hdistinct; try assumption.
    + now rewrite Hp.
    + apply str_le_antisym.
      * apply Hmax2; [now rewrite <- Hp | exact Hn1].
      * apply Hmax1; [now rewrite Hp | exact Hn2].
  - destruct (select_artifact n l2) as [a2|e2] eqn:H2.
    + destruct (select_artifact_max _ _ _ H2) as (Hin2 & Hn2 & _).
      destruct (select_artifact_matching n l1) as [a1 Ha1].
      { exists a2. split; [now rewrite Hp | exact Hn2]. }
      congruence.
    + rewrite select_artifact_latest in H1, H2.
      destruct (latest _ _); [discriminate|].
      destruct (latest _ _); [discriminate|]. congruence.
Qed.

Lemma selection_order_independent_witness :
  select_artifact "db" [Demo.db1; Demo.db2; Demo.other]
  = select_artifact "db" [Demo.other; Demo.db2; Demo.db1].
Proof.
  apply selection_order_independent.
  - apply perm_trans with [Demo.db2; Demo.db1; Demo.other].
    + apply perm_swap.
    + apply perm_trans with [Demo.db2; Demo.other; Demo.db1].
      * apply perm_skip, perm_swap.
      * apply perm_swap.
  - intros a b Ha Hb _ _ Hc.
    repeat (apply elem_of_cons in Ha; destruct Ha as [->|Ha]);
      repeat (apply elem_of_cons in Hb; destruct Hb as [->|Hb]);
      try reflexivity; try discriminate;
      try (now apply elem_of_nil in Ha); try (now apply elem_of_nil in Hb).
Defined.
